(** * jsdoc-generator: the extension entry point ([src/extension.ts])

    A shallow embedding of the VS Code extension shim of the JSDoc
    generator: the completion item and its range computation, the
    completion provider, the four command handlers, the lazily created
    generator object and the configuration accessor.

    Conventions.
    - Document text is a JavaScript string: a list of UTF-16 code units
      ([list N]).  Regular expressions without the [u] flag work on code
      units, and [Position.character] counts them.
    - String literals of the program itself (command identifiers, labels,
      messages, configuration keys) are ASCII and are kept as [string].
    - An exception thrown by the host API is [None] in the [option] monad.
    - The command handlers run in a state-and-output monad over the
      module-level variables and the host's observable state. *)

From Stdlib Require Import ZArith NArith String Ascii List Bool Lia.
From stdpp Require Import base option list strings gmap.

Set Warnings "-register-all".
Local Open Scope N_scope.

(** ** JavaScript strings as code units *)

Module Js.

Abbreviation CodeUnit := N (only parsing).
Abbreviation JsString := (list N) (only parsing).

(** The code units of an ASCII literal. *)
Definition utf16 (s : string) : JsString :=
  map N_of_ascii (list_ascii_of_string s).

(** [String.prototype.slice(0, n)] and [String.prototype.slice(n)] for a
    non-negative integer [n]: indices past the end are clamped. *)
Definition slice_to (s : JsString) (n : nat) : JsString := take n s.
Definition slice_from (s : JsString) (n : nat) : JsString := drop n s.

(** The class [\s] of ECMAScript: WhiteSpace and LineTerminator. *)
Definition is_white_space (c : CodeUnit) : bool :=
  (c =? 9) || (c =? 10) || (c =? 11) || (c =? 12) || (c =? 13) ||
  (c =? 32) || (c =? 160) || (c =? 5760) ||
  ((8192 <=? c) && (c <=? 8202)) ||
  (c =? 8232) || (c =? 8233) || (c =? 8239) || (c =? 8287) ||
  (c =? 12288) || (c =? 65279).

Definition SLASH : CodeUnit := 47.
Definition ASTERISK : CodeUnit := 42.

(** *** The fragment of regular expressions used by the extension

    Every pattern of [extension.ts] is a sequence of single characters or
    [\s], each possibly under a greedy [*], between optional [^] and [$]
    assertions (no flags). *)

Inductive CharSet : Type :=
| Lit (c : CodeUnit)      (* an escaped or plain character *)
| Space.                  (* \s *)

Definition cs_mem (cs : CharSet) (c : CodeUnit) : bool :=
  match cs with
  | Lit d => c =? d
  | Space => is_white_space c
  end.

Inductive Term : Type :=
| Once (cs : CharSet)     (* x  *)
| Star (cs : CharSet).    (* x* *)

Record RegExp : Type := mkRegExp {
  anchored_start : bool;  (* leading ^ *)
  body : list Term;
  anchored_end : bool     (* trailing $ *)
}.

(** The backtracking matcher: [match_terms ts at_end s] matches the terms
    in order against the beginning of [s] and gives the number of code
    units consumed by the first successful alternative.  A starred term
    first tries to take one more character and falls back to the
    continuation when that fails (greedy).  With [at_end], the match has
    to stop at the end of the input. *)
Fixpoint match_terms (ts : list Term) (at_end : bool) (s : JsString)
  : option nat :=
  match ts with
  | [] =>
      if at_end then match s with [] => Some 0%nat | _ :: _ => None end
      else Some 0%nat
  | Once cs :: ts' =>
      match s with
      | c :: s' =>
          if cs_mem cs c then S <$> match_terms ts' at_end s' else None
      | [] => None
      end
  | Star cs :: ts' =>
      (fix star (s : JsString) : option nat :=
         match s with
         | c :: s' =>
             if cs_mem cs c then
               match star s' with
               | Some n => Some (S n)
               | None => match_terms ts' at_end s
               end
             else match_terms ts' at_end s
         | [] => match_terms ts' at_end []
         end) s
  end.

(** One attempt at start index [i]: [^] only holds at index 0. *)
Definition attempt (r : RegExp) (i : nat) (s : JsString) : option nat :=
  if anchored_start r && negb (i =? 0)%nat then None
  else match_terms (body r) (anchored_end r) s.

(** The search loop of [RegExp.prototype.exec] (not global, not sticky):
    start indices are tried from left to right; [s] is the input from
    index [i] on. *)
Fixpoint search (r : RegExp) (i : nat) (s : JsString) : option (nat * nat) :=
  match attempt r i s with
  | Some n => Some (i, n)
  | None =>
      match s with
      | [] => None
      | _ :: s' => search r (S i) s'
      end
  end.

(** The result array of a successful match: element 0 and [index]. *)
Record MatchResult : Type := mkMatch {
  matched : JsString;
  index : nat
}.

(** [String.prototype.match] with a non-global pattern: [null] is [None]. *)
Definition js_match (s : JsString) (r : RegExp) : option MatchResult :=
  match search r 0 s with
  | Some (i, n) => Some (mkMatch (take n (drop i s)) i)
  | None => None
  end.

End Js.

(** ** The part of the [vscode] API the extension uses *)

Module Vscode.

Record Position : Type := mkPosition {
  line : nat;
  character : nat
}.

(** [Position.translate(lineDelta, characterDelta)]: the constructor of
    [Position] throws on a negative line or character. *)
Definition translate (p : Position) (lineDelta characterDelta : Z)
  : option Position :=
  let l := (Z.of_nat (line p) + lineDelta)%Z in
  let c := (Z.of_nat (character p) + characterDelta)%Z in
  if ((l <? 0) || (c <? 0))%Z then None
  else Some (mkPosition (Z.to_nat l) (Z.to_nat c)).

Definition isBefore (p q : Position) : bool :=
  ((line p <? line q) || ((line p =? line q) && (character p <? character q)))%nat.

Definition isBeforeOrEqual (p q : Position) : bool :=
  ((line p <? line q) || ((line p =? line q) && (character p <=? character q)))%nat.

Record Range : Type := mkRange {
  range_start : Position;
  range_end : Position
}.

(** [new Range(start, end)]: the constructor keeps the two positions
    when [start] is before [end] and exchanges them otherwise. *)
Definition Range_new (a b : Position) : Range :=
  if isBefore a b then mkRange a b else mkRange b a.

(** The members of [CompletionItemKind] the model tells apart. *)
Inductive CompletionItemKind : Type :=
| Text | Keyword | Snippet.

(** The [Command] object attached to a completion item. *)
Record Command : Type := mkCommand {
  title : string;
  command : string
}.

(** A text document is the text of its lines; [lineAt] throws when the
    line number is out of range. *)
Definition TextDocument : Type := list (list N).

Definition lineAt (document : TextDocument) (n : nat) : option (list N) :=
  document !! n.

End Vscode.

Import Js Vscode.

(** ** The completion item (extension.ts, class JsdocCompletionItem) *)

(** The pattern [/\/\**\s*$/]: the opening of a comment, up to the cursor. *)
Definition OPENING_BEFORE_CURSOR : RegExp :=
  mkRegExp false [Once (Lit SLASH); Star (Lit ASTERISK); Star Space] true.

(** The pattern [/^\s*\**\//]: the closing of a comment, from the cursor. *)
Definition CLOSING_AFTER_CURSOR : RegExp :=
  mkRegExp true [Star Space; Star (Lit ASTERISK); Once (Lit SLASH)] false.

(** The pattern [/^\s*\/\*\*\s*$/] of the completion provider. *)
Definition JSDOC_START : RegExp :=
  mkRegExp true
    [Star Space; Once (Lit SLASH); Once (Lit ASTERISK); Once (Lit ASTERISK);
     Star Space]
    true.

(** [prefix ? -prefix[0].length : 0] and [suffix ? suffix[0].length : 0]. *)
Definition matched_length (m : option MatchResult) : Z :=
  match m with
  | Some r => Z.of_nat (length (matched r))
  | None => 0%Z
  end.

Definition retrieveRange (line : list N) (position : Position) : option Range :=
  let prefix := js_match (slice_to line (character position)) OPENING_BEFORE_CURSOR in
  let suffix := js_match (slice_from line (character position)) CLOSING_AFTER_CURSOR in
  start ← translate position 0 (- matched_length prefix);
  stop ← translate position 0 (matched_length suffix);
  Some (Range_new start stop).

Record JsdocCompletionItem : Type := mkJsdocCompletionItem {
  label : string;
  kind : CompletionItemKind;
  insertText : string;
  sortText : string;
  range : Range;
  item_command : Command
}.

(** The constructor: [super(label, kind)] and the four assignments. *)
Definition JsdocCompletionItem_new (line : list N) (position : Position)
  : option JsdocCompletionItem :=
  r ← retrieveRange line position;
  Some {|
    label := "/** Autogenerated JSDoc */";
    kind := Snippet;
    insertText := "";
    sortText := String zero EmptyString;
    range := r;
    item_command := {| title := "Generate JSDoc";
                       command := "jsdoc-generator.generateJsdoc" |}
  |}.

(** The value [provideCompletionItems] returns: an array or [null]. *)
Inductive CompletionResult : Type :=
| Items (items : list JsdocCompletionItem)
| Null.

Definition provideCompletionItems (document : TextDocument) (position : Position)
  : option CompletionResult :=
  line ← lineAt document (line position);
  let prefix := slice_to line (character position) in
  match js_match prefix JSDOC_START with
  | Some _ =>
      item ← JsdocCompletionItem_new line position;
      Some (Items [item])
  | None => Some Null
  end.

(** ** Host objects, module state and the command monad *)

Module Host.

Inductive Uri : Type := mkUri (path : string).
Inductive TextEditor : Type := mkTextEditor (ref : nat).
Inductive WorkspaceEdit : Type := mkWorkspaceEdit (ref : nat).
Inductive Progress : Type := mkProgress (ref : nat).
Inductive CancellationToken : Type := mkCancellationToken (ref : nat).

(** A [JsdocGenerator] object, known by its reference: the class lives in
    [./JsdocGenerator] and only its construction and the calls of its
    three entry points are visible from [extension.ts]. *)
Inductive JsdocGenerator : Type := mkJsdocGenerator (ref : nat).

(** The two ways [extension.ts] constructs a [TextFile]:
    [new TextFile(edit, file)] and [new TextFile(editor)]. *)
Inductive TextFile : Type :=
| TextFile_of_uri (edit : WorkspaceEdit) (file : Uri)
| TextFile_of_editor (editor : TextEditor).

Inductive ProgressLocation : Type :=
| SourceControl | Window | Notification.

Record ProgressOptions : Type := mkProgressOptions {
  location : ProgressLocation;
  progress_title : string;
  cancellable : bool
}.

(** A call of an entry point of the generator, with its arguments; an
    argument left out or [undefined] is [None]. *)
Inductive GeneratorCall : Type :=
| Call_generateJsdoc
    (progress : Progress) (token : CancellationToken) (editor : TextEditor)
| Call_generateJsdocFile
    (progress : Progress) (token : CancellationToken) (file : TextFile)
| Call_generateJsdocWorkspace
    (progress : Progress) (token : CancellationToken) (folder : option Uri).

(** What a progress task returns: the promise of a generator call or
    [Promise.resolve()]. *)
Inductive Promise : Type :=
| PromiseOf (g : JsdocGenerator) (c : GeneratorCall)
| Resolved.

(** The four registered callbacks, by name. *)
Inductive Handler : Type :=
| GenerateJsdoc | GenerateJsdocFile | GenerateJsdocFolder | GenerateJsdocWorkspace.

Record DocumentFilter : Type := mkDocumentFilter {
  scheme : string;
  language : string
}.

Inductive Disposable : Type :=
| CommandRegistration (id : string)
| CompletionProviderRegistration (selector : list DocumentFilter).

Record ExtensionContext : Type := mkExtensionContext {
  subscriptions : list Disposable
}.

(** What the user and the generator can observe of a run. *)
Inductive Event : Type :=
| SetContext (key : string) (value : list string)
| NewJsdocGenerator (g : JsdocGenerator)
| WithProgress (options : ProgressOptions) (progress : Progress)
    (token : CancellationToken)
| Invoke (g : JsdocGenerator) (c : GeneratorCall)
| ShowErrorMessage (message : string).

(** Values of settings. *)
Record CustomTag : Type := mkCustomTag {
  tag : string;
  placeholder : option string
}.

Inductive ConfigValue : Type :=
| VString (s : string)
| VBoolean (b : bool)
| VNumber (n : Z)
| VCustomTags (l : list CustomTag).

(** The module-level variable of [extension.ts] and the state of the
    host the extension reads or writes. *)
Record World : Type := mkWorld {
  jsdocGenerator : option JsdocGenerator;      (* let jsdocGenerator *)
  activeTextEditor : option TextEditor;        (* vscode.window.activeTextEditor *)
  configuration : gmap string ConfigValue;     (* the settings store *)
  commands : gmap string Handler;              (* registered commands *)
  completionProviders : list (list DocumentFilter * list string);
  next_ref : nat                               (* next fresh object reference *)
}.

(** A computation: the value ([None] when an exception was thrown), the
    world afterwards and the events emitted, oldest first. *)
Definition M (A : Type) : Type := World → option A * World * list Event.

Definition ret {A} (a : A) : M A := λ w, (Some a, w, []).

Definition bind {A B} (m : M A) (f : A → M B) : M B :=
  λ w,
    match m w with
    | (Some a, w1, t1) => let '(b, w2, t2) := f a w1 in (b, w2, t1 ++ t2)
    | (None, w1, t1) => (None, w1, t1)
    end.

Definition throw {A} : M A := λ w, (None, w, []).
Definition emit (e : Event) : M unit := λ w, (Some tt, w, [e]).
Definition gets {A} (f : World → A) : M A := λ w, (Some (f w), w, []).
Definition modify (f : World → World) : M unit := λ w, (Some tt, f w, []).

Definition result {A} (r : option A * World * list Event) : option A := r.1.1.
Definition world_after {A} (r : option A * World * list Event) : World := r.1.2.
Definition trace {A} (r : option A * World * list Event) : list Event := r.2.

Definition fresh : M nat :=
  λ w, (Some (next_ref w),
        mkWorld (jsdocGenerator w) (activeTextEditor w) (configuration w)
                (commands w) (completionProviders w) (S (next_ref w)),
        []).

End Host.

Import Host.

Declare Scope cmd_scope.
Delimit Scope cmd_scope with cmd.
Notation "x <- m ;; k" := (bind m (λ x, k))
  (at level 100, m at next level, right associativity) : cmd_scope.
Notation "m ;; k" := (bind m (λ _, k))
  (at level 100, right associativity) : cmd_scope.
Local Open Scope cmd_scope.

(** ** Host functions *)

(** [new JsdocGenerator()]. *)
Definition JsdocGenerator_new : M JsdocGenerator :=
  r <- fresh ;;
  emit (NewJsdocGenerator (mkJsdocGenerator r)) ;;
  ret (mkJsdocGenerator r).

(** [new vscode.WorkspaceEdit()]. *)
Definition WorkspaceEdit_new : M WorkspaceEdit :=
  r <- fresh ;; ret (mkWorkspaceEdit r).

(** [vscode.window.withProgress(options, task)]: the host creates the
    progress reporter and the cancellation token and runs the task with
    them; the value is what the task returned. *)
Definition withProgress {A} (options : ProgressOptions)
    (task : Progress → CancellationToken → M A) : M A :=
  p <- fresh ;;
  t <- fresh ;;
  emit (WithProgress options (mkProgress p) (mkCancellationToken t)) ;;
  task (mkProgress p) (mkCancellationToken t).

Definition showErrorMessage (message : string) : M unit :=
  emit (ShowErrorMessage message).

(** [vscode.commands.registerCommand]: throws when the identifier is
    already registered. *)
Definition registerCommand (id : string) (h : Handler) : M Disposable :=
  cs <- gets commands ;;
  match cs !! id with
  | Some _ => throw
  | None =>
      modify (λ w, mkWorld (jsdocGenerator w) (activeTextEditor w)
                           (configuration w) (<[id := h]> (commands w))
                           (completionProviders w) (next_ref w)) ;;
      ret (CommandRegistration id)
  end.

Definition registerCompletionItemProvider
    (selector : list DocumentFilter) (triggerCharacters : list string)
  : M Disposable :=
  modify (λ w, mkWorld (jsdocGenerator w) (activeTextEditor w)
                       (configuration w) (commands w)
                       (completionProviders w ++ [(selector, triggerCharacters)])
                       (next_ref w)) ;;
  ret (CompletionProviderRegistration selector).

(** A method call on the module variable: a [TypeError] when it is
    still [undefined]. *)
Definition invoke (c : GeneratorCall) : M Promise :=
  g <- gets jsdocGenerator ;;
  match g with
  | Some g => emit (Invoke g c) ;; ret (PromiseOf g c)
  | None => throw
  end.

(** ** extension.ts *)

Definition lazyInstantiateJsdocGenerator : M unit :=
  g <- gets jsdocGenerator ;;
  match g with
  | None =>
      g' <- JsdocGenerator_new ;;
      modify (λ w, mkWorld (Some g') (activeTextEditor w) (configuration w)
                           (commands w) (completionProviders w) (next_ref w))
  | Some _ => ret tt
  end.

Definition SUPPORTED_LANGUAGES : list string :=
  ["javascript"; "javascriptreact"; "typescript"; "typescriptreact"]%string.

(** The statement run when the module is loaded. *)
Definition module_load : M unit :=
  emit (SetContext "ext.supportedLanguages" SUPPORTED_LANGUAGES).

(** The progress tasks of the four commands. *)
Definition generateJsdoc_task (progress : Progress) (token : CancellationToken)
  : M Promise :=
  lazyInstantiateJsdocGenerator ;;
  editor <- gets activeTextEditor ;;
  match editor with
  | Some editor => invoke (Call_generateJsdoc progress token editor)
  | None =>
      showErrorMessage "Unable to generate JSDoc: no editor has been selected." ;;
      ret Resolved
  end.

Definition generateJsdocFile_task (file : option Uri)
    (progress : Progress) (token : CancellationToken) : M Promise :=
  lazyInstantiateJsdocGenerator ;;
  match file with
  | Some file =>
      edit <- WorkspaceEdit_new ;;
      invoke (Call_generateJsdocFile progress token (TextFile_of_uri edit file))
  | None =>
      editor <- gets activeTextEditor ;;
      match editor with
      | Some editor =>
          invoke (Call_generateJsdocFile progress token (TextFile_of_editor editor))
      | None =>
          showErrorMessage "Unable to generate JSDoc: no valid file has been selected." ;;
          ret Resolved
      end
  end.

Definition generateJsdocFolder_task (folder : option Uri)
    (progress : Progress) (token : CancellationToken) : M Promise :=
  lazyInstantiateJsdocGenerator ;;
  invoke (Call_generateJsdocWorkspace progress token folder).

Definition generateJsdocWorkspace_task
    (progress : Progress) (token : CancellationToken) : M Promise :=
  lazyInstantiateJsdocGenerator ;;
  invoke (Call_generateJsdocWorkspace progress token None).

Definition progress_options (title : string) : ProgressOptions :=
  {| location := Notification; progress_title := title; cancellable := true |}.

(** The callbacks given to [registerCommand]; [arg] is the argument the
    host passes (a [Uri] from the explorer menu, or nothing).  Each
    callback has a block body: it drops the promise of [withProgress]. *)
Definition handler (h : Handler) (arg : option Uri) : M unit :=
  match h with
  | GenerateJsdoc =>
      withProgress (progress_options "JSDocGen (node)") generateJsdoc_task ;;
      ret tt
  | GenerateJsdocFile =>
      withProgress (progress_options "JSDocGen (file)")
                   (generateJsdocFile_task arg) ;;
      ret tt
  | GenerateJsdocFolder =>
      withProgress (progress_options "JSDocGen (folder)")
                   (generateJsdocFolder_task arg) ;;
      ret tt
  | GenerateJsdocWorkspace =>
      withProgress (progress_options "JSDocGen (workspace)")
                   generateJsdocWorkspace_task ;;
      ret tt
  end.

(** The promise the progress task of a command returns. *)
Definition task_of (h : Handler) (arg : option Uri)
  : Progress → CancellationToken → M Promise :=
  match h with
  | GenerateJsdoc => generateJsdoc_task
  | GenerateJsdocFile => generateJsdocFile_task arg
  | GenerateJsdocFolder => generateJsdocFolder_task arg
  | GenerateJsdocWorkspace => generateJsdocWorkspace_task
  end.

Definition COMPLETION_SELECTOR : list DocumentFilter :=
  [ {| scheme := "file"; language := "typescript" |};
    {| scheme := "file"; language := "typescriptreact" |};
    {| scheme := "file"; language := "javascript" |};
    {| scheme := "file"; language := "javascriptreact" |} ].

Definition activate (context : ExtensionContext) : M ExtensionContext :=
  generateJsdocAutocompletion <-
    registerCompletionItemProvider COMPLETION_SELECTOR ["/"; "*"]%string ;;
  generateJsdoc <-
    registerCommand "jsdoc-generator.generateJsdoc" GenerateJsdoc ;;
  generateJsdocFile <-
    registerCommand "jsdoc-generator.generateJsdocFile" GenerateJsdocFile ;;
  generateJsdocFolder <-
    registerCommand "jsdoc-generator.generateJsdocFolder" GenerateJsdocFolder ;;
  generateJsdocWorkspace <-
    registerCommand "jsdoc-generator.generateJsdocWorkspace" GenerateJsdocWorkspace ;;
  ret {| subscriptions :=
           subscriptions context ++
           [generateJsdoc; generateJsdocFile; generateJsdocFolder;
            generateJsdocWorkspace; generateJsdocAutocompletion] |}.

Definition deactivate : M unit := ret tt.

(** The host runs a command by its identifier. *)
Definition executeCommand (id : string) (arg : option Uri) : M unit :=
  cs <- gets commands ;;
  match cs !! id with
  | Some h => handler h arg
  | None => throw
  end.

(** *** Configuration *)

(** [keyof Configuration]. *)
Inductive ConfigKey : Type :=
| descriptionPlaceholder | author | includeDate | includeTime | includeTypes
| includeParenthesisForMultipleTypes | descriptionForConstructors
| functionVariablesAsFunctions | includeExport | includeAsync | customTags
| tagValueColumnStart | tagNameColumnStart | tagDescriptionColumnStart
| generativeApiKey | generativeModel | generativeLanguage
| generateDescriptionForTypeParameters | generateDescriptionForParameters
| generateDescriptionForReturns.

Definition key_name (k : ConfigKey) : string :=
  match k with
  | descriptionPlaceholder => "descriptionPlaceholder"
  | author => "author"
  | includeDate => "includeDate"
  | includeTime => "includeTime"
  | includeTypes => "includeTypes"
  | includeParenthesisForMultipleTypes => "includeParenthesisForMultipleTypes"
  | descriptionForConstructors => "descriptionForConstructors"
  | functionVariablesAsFunctions => "functionVariablesAsFunctions"
  | includeExport => "includeExport"
  | includeAsync => "includeAsync"
  | customTags => "customTags"
  | tagValueColumnStart => "tagValueColumnStart"
  | tagNameColumnStart => "tagNameColumnStart"
  | tagDescriptionColumnStart => "tagDescriptionColumnStart"
  | generativeApiKey => "generativeApiKey"
  | generativeModel => "generativeModel"
  | generativeLanguage => "generativeLanguage"
  | generateDescriptionForTypeParameters => "generateDescriptionForTypeParameters"
  | generateDescriptionForParameters => "generateDescriptionForParameters"
  | generateDescriptionForReturns => "generateDescriptionForReturns"
  end.

(** [vscode.workspace.getConfiguration()]: a view of the settings store as
    it is at the time of the call. *)
Definition getConfiguration : M (gmap string ConfigValue) :=
  gets configuration.

(** [WorkspaceConfiguration.get(section, defaultValue)]. *)
Definition WorkspaceConfiguration_get (c : gmap string ConfigValue)
    (section : string) (defaultValue : ConfigValue) : ConfigValue :=
  default defaultValue (c !! section).

Definition getConfig (property : ConfigKey) (defaultValue : ConfigValue)
  : M ConfigValue :=
  c <- getConfiguration ;;
  ret (WorkspaceConfiguration_get c
         ("jsdoc-generator." +:+ key_name property) defaultValue).


(** *** What the host and the user do around the extension *)

(** The user moves the focus: [vscode.window.activeTextEditor] changes. *)
Definition focus (editor : option TextEditor) : M unit :=
  modify (λ w, mkWorld (jsdocGenerator w) editor (configuration w)
                       (commands w) (completionProviders w) (next_ref w)).

(** The user changes a setting. *)
Definition updateSetting (section : string) (value : ConfigValue) : M unit :=
  modify (λ w, mkWorld (jsdocGenerator w) (activeTextEditor w)
                       (<[section := value]> (configuration w))
                       (commands w) (completionProviders w) (next_ref w)).

(** One run of a command: the editor that has the focus at that time,
    the callback and the argument the host gives it. *)
Record Invocation : Type := mkInvocation {
  inv_editor : option TextEditor;
  inv_command : Handler;
  inv_arg : option Uri
}.

Definition invoke_command (i : Invocation) : M unit :=
  focus (inv_editor i) ;;
  handler (inv_command i) (inv_arg i).

(** The commands of a session, one after the other. *)
Fixpoint session (invs : list Invocation) : M unit :=
  match invs with
  | [] => ret tt
  | i :: invs' => invoke_command i ;; session invs'
  end.

(** The world when the module has just been loaded: [jsdocGenerator] is
    declared without a value. *)
Definition loaded (editor : option TextEditor) (settings : gmap string ConfigValue)
  : World :=
  mkWorld None editor settings ∅ [] 0.
(** ** Vocabulary of the statements *)

(** The strings a sequence of terms denotes. *)
Fixpoint denotes (ts : list Term) (s : list N) : Prop :=
  match ts with
  | [] => s = []
  | Once cs :: ts' =>
      ∃ c s', s = c :: s' ∧ cs_mem cs c = true ∧ denotes ts' s'
  | Star cs :: ts' =>
      ∃ xs s', s = xs ++ s' ∧ Forall (λ c, cs_mem cs c = true) xs ∧ denotes ts' s'
  end.

Definition white (s : list N) : Prop := Forall (λ c, is_white_space c = true) s.
Definition asterisks (s : list N) : Prop := Forall (λ c, c = ASTERISK) s.

(** Optional whitespace, then [/**], then optional whitespace. *)
Definition jsdoc_start_shape (s : list N) : Prop :=
  ∃ w1 w2, s = w1 ++ utf16 "/**" ++ w2 ∧ white w1 ∧ white w2.

(** [/], then zero or more [*], then trailing whitespace. *)
Definition opening_shape (s : list N) : Prop :=
  ∃ stars ws, s = SLASH :: stars ++ ws ∧ asterisks stars ∧ white ws.

(** Whitespace, then zero or more [*], then [/]. *)
Definition closing_shape (s : list N) : Prop :=
  ∃ ws stars, s = ws ++ stars ++ [SLASH] ∧ white ws ∧ asterisks stars.

(** [n] is the length of the longest suffix of [s] in [P], or 0 when no
    suffix of [s] is in [P]. *)
Definition longest_suffix_length (P : list N → Prop) (s : list N) (n : nat) : Prop :=
  (∃ suf, suf `suffix_of` s ∧ P suf ∧ length suf = n ∧
          ∀ suf', suf' `suffix_of` s → P suf' → (length suf' ≤ n)%nat)
  ∨ ((∀ suf', suf' `suffix_of` s → ¬ P suf') ∧ n = 0%nat).

Definition longest_prefix_length (P : list N → Prop) (s : list N) (n : nat) : Prop :=
  (∃ p, p `prefix_of` s ∧ P p ∧ length p = n ∧
        ∀ p', p' `prefix_of` s → P p' → (length p' ≤ n)%nat)
  ∨ ((∀ p', p' `prefix_of` s → ¬ P p') ∧ n = 0%nat).

Definition match_len (m : option MatchResult) : nat :=
  match m with
  | Some r => length (matched r)
  | None => 0%nat
  end.

(** The generator calls, the error messages and the generator objects
    constructed in a trace, oldest first. *)
Definition invocations (t : list Event) : list (JsdocGenerator * GeneratorCall) :=
  omap (λ e, match e with Invoke g c => Some (g, c) | _ => None end) t.

Definition errors_shown (t : list Event) : list string :=
  omap (λ e, match e with ShowErrorMessage m => Some m | _ => None end) t.

Definition constructed (t : list Event) : list JsdocGenerator :=
  omap (λ e, match e with NewJsdocGenerator g => Some g | _ => None end) t.

Definition call_progress (c : GeneratorCall) : Progress :=
  match c with
  | Call_generateJsdoc p _ _ => p
  | Call_generateJsdocFile p _ _ => p
  | Call_generateJsdocWorkspace p _ _ => p
  end.

Definition call_token (c : GeneratorCall) : CancellationToken :=
  match c with
  | Call_generateJsdoc _ t _ => t
  | Call_generateJsdocFile _ t _ => t
  | Call_generateJsdocWorkspace _ t _ => t
  end.

(** A run creates the engines it constructs and observes the engines it
    calls. *)
Definition creates (t : list Event) (g : JsdocGenerator) : Prop :=
  In g (constructed t).

Definition observes (t : list Event) (g : JsdocGenerator) : Prop :=
  ∃ c, In (g, c) (invocations t).

(** Two command invocations in a row are isolated when neither observes
    an engine object created by the other. *)
Definition isolated (w : World) (i1 i2 : Invocation) : Prop :=
  let r1 := invoke_command i1 w in
  let r2 := invoke_command i2 (world_after r1) in
  ∀ g, (creates (trace r1) g → ¬ observes (trace r2) g) ∧
       (creates (trace r2) g → ¬ observes (trace r1) g).

(** The entry point of the generator a call goes to, and the entry point
    of each command. *)
Inductive EntryPoint : Type :=
| generateJsdoc | generateJsdocFile | generateJsdocWorkspace.

Definition entry_point (c : GeneratorCall) : EntryPoint :=
  match c with
  | Call_generateJsdoc _ _ _ => generateJsdoc
  | Call_generateJsdocFile _ _ _ => generateJsdocFile
  | Call_generateJsdocWorkspace _ _ _ => generateJsdocWorkspace
  end.

Definition entry_point_of (h : Handler) : EntryPoint :=
  match h with
  | GenerateJsdoc => generateJsdoc
  | GenerateJsdocFile => generateJsdocFile
  | GenerateJsdocFolder => generateJsdocWorkspace
  | GenerateJsdocWorkspace => generateJsdocWorkspace
  end.

(** The options of the progress notifications opened in a trace. *)
Definition progresses (t : list Event) : list ProgressOptions :=
  omap (λ e, match e with WithProgress o _ _ => Some o | _ => None end) t.

(** The identifier under which [activate] registers each callback. *)
Definition command_id (h : Handler) : string :=
  match h with
  | GenerateJsdoc => "jsdoc-generator.generateJsdoc"
  | GenerateJsdocFile => "jsdoc-generator.generateJsdocFile"
  | GenerateJsdocFolder => "jsdoc-generator.generateJsdocFolder"
  | GenerateJsdocWorkspace => "jsdoc-generator.generateJsdocWorkspace"
  end.

(** A registry with the four commands of the extension added, in the
    order [activate] registers them. *)
Definition activated (cs : gmap string Handler) : gmap string Handler :=
  <[command_id GenerateJsdocWorkspace := GenerateJsdocWorkspace]>
    (<[command_id GenerateJsdocFolder := GenerateJsdocFolder]>
       (<[command_id GenerateJsdocFile := GenerateJsdocFile]>
          (<[command_id GenerateJsdoc := GenerateJsdoc]> cs))).


(** The characters the two patterns of [retrieveRange] can match: [/],
    [*] and whitespace. *)
Definition delimiter_char (c : N) : Prop :=
  c = SLASH ∨ c = ASTERISK ∨ is_white_space c = true.

(** The text of a line a range on that line covers. *)
Definition covered (text : list N) (r : Range) : list N :=
  take (character (range_end r) - character (range_start r))
       (drop (character (range_start r)) text).

(** Whether a command has something to work on: the single-node command
    needs an active editor, the file command a [Uri] or an active
    editor; the folder and workspace commands need nothing. *)
Definition has_target (h : Handler) (arg : option Uri) (w : World) : bool :=
  match h with
  | GenerateJsdoc =>
      match activeTextEditor w with Some _ => true | None => false end
  | GenerateJsdocFile =>
      match arg, activeTextEditor w with
      | None, None => false
      | _, _ => true
      end
  | GenerateJsdocFolder => true
  | GenerateJsdocWorkspace => true
  end.

(** * The type printer of the generator, as the specification describes it

    The classes behind [./JsdocGenerator] are not part of
    [extension.ts].  This module follows the TypeDescriptor of section 3
    and the rendering rule of section 4.2 of the specification. *)

Module Core.

(** Modelled from the spec: TypeDescriptor (section 3), the value the
    missing type printer of the generator works on. *)
Inductive TypeDescriptor : Type :=
| Primitive (name : string)
| Array (element : TypeDescriptor)
| Union (members : list TypeDescriptor)
| Intersection (members : list TypeDescriptor)
| FunctionType (params : list TypeDescriptor) (returnType : TypeDescriptor)
| Generic (base : string) (typeArguments : list TypeDescriptor)
| Reference (name : string)
| Unknown.

(** Modelled from the spec: the mark of section 4.2, "optional/required
    with a trailing modifier". *)
Inductive Modifier : Type :=
| Plain | Optional | Required.

Definition modifier_text (m : Modifier) : string :=
  match m with
  | Plain => ""
  | Optional => "="
  | Required => "!"
  end.

Definition join (sep : string) (l : list string) : string :=
  match l with
  | [] => ""
  | x :: xs => fold_left (λ acc y, acc +:+ sep +:+ y) xs x
  end.

Definition parenthesize (b : bool) (s : string) : string :=
  if b then "(" +:+ s +:+ ")" else s.

(** Modelled from the spec: the rendering rule of section 4.2 for the
    missing type printer.  [parens] is the setting
    [includeParenthesisForMultipleTypes]; [forced] says that the type is
    the element of an array or carries a trailing modifier.  The
    concrete syntax of the other types is TypeScript's; an unknown type
    prints as [any] (README, Known Issues). *)
Fixpoint render_type (parens forced : bool) (t : TypeDescriptor) : string :=
  match t with
  | Primitive name => name
  | Reference name => name
  | Unknown => "any"
  | Array element => render_type parens true element +:+ "[]"
  | Union members =>
      parenthesize (parens || forced)
        (join " | " (map (render_type parens false) members))
  | Intersection members =>
      parenthesize (parens || forced)
        (join " & " (map (render_type parens false) members))
  | FunctionType params returnType =>
      "(" +:+ join ", " (map (render_type parens false) params) +:+ ") => "
      +:+ render_type parens false returnType
  | Generic base typeArguments =>
      base +:+ "<" +:+ join ", " (map (render_type parens false) typeArguments)
      +:+ ">"
  end.

(** Modelled from the spec: a type with its mark (section 4.2); the
    modifier follows the type. *)
Definition render_marked (parens : bool) (m : Modifier) (t : TypeDescriptor)
  : string :=
  render_type parens (match m with Plain => false | _ => true end) t
  +:+ modifier_text m.

Definition is_composite (t : TypeDescriptor) : bool :=
  match t with
  | Union _ | Intersection _ => true
  | _ => false
  end.

(** A text between parentheses. *)
Definition parenthesized (s : string) : Prop :=
  ∃ inner, s = "(" +:+ inner +:+ ")".

End Core.
(** * Properties *)

(** ** The matcher against the language of a pattern *)

Section Matcher.


Lemma match_terms_star cs ts e s :
  match_terms (Star cs :: ts) e s =
  match s with
  | c :: s' =>
      if cs_mem cs c then
        match match_terms (Star cs :: ts) e s' with
        | Some n => Some (S n)
        | None => match_terms ts e s
        end
      else match_terms ts e s
  | [] => match_terms ts e []
  end.
Proof. destruct s; reflexivity. Qed.

Lemma match_terms_sound ts e s n :
  match_terms ts e s = Some n →
  (n ≤ length s)%nat ∧ denotes ts (take n s) ∧ (e = true → n = length s).
Proof.
  revert s n. induction ts as [|t ts IH]; intros s n.
  - simpl. destruct e, s; intros H; inversion H; subst; simpl; auto with lia.
  - destruct t as [cs|cs].
    + simpl. destruct s as [|c s]; [discriminate|].
      destruct (cs_mem cs c) eqn:Hc; [|discriminate].
      destruct (match_terms ts e s) as [m|] eqn:Hm; [|discriminate].
      intros H; inversion H; subst; clear H.
      destruct (IH _ _ Hm) as (Hle & Hd & He). simpl.
      split; [lia|]. split; [eauto|]. intros ->. f_equal; auto.
    + revert n. induction s as [|c s IHs]; intros n; rewrite match_terms_star.
      * intros H. destruct (IH _ _ H) as (Hle & Hd & He).
        split; [assumption|]. split; [|assumption].
        exists [], (take n []). auto.
      * assert (Hfall : ∀ k, match_terms ts e (c :: s) = Some k →
                  (k ≤ length (c :: s))%nat ∧
                  denotes (Star cs :: ts) (take k (c :: s)) ∧
                  (e = true → k = length (c :: s))).
        { intros k H. destruct (IH _ _ H) as (Hle & Hd & He).
          split; [assumption|]. split; [|assumption].
          exists [], (take k (c :: s)). auto. }
        destruct (cs_mem cs c) eqn:Hc; [|apply Hfall].
        destruct (match_terms (Star cs :: ts) e s) as [m|] eqn:Hm; [|apply Hfall].
        intros H; inversion H; subst; clear H.
        destruct (IHs _ eq_refl) as (Hle & (xs & s' & Hx & Hall & Hd) & He).
        simpl. split; [lia|]. split.
        -- exists (c :: xs), s'. rewrite Hx. auto.
        -- intros ->. f_equal; auto.
Qed.

Lemma match_terms_skip_star cs ts e s :
  is_Some (match_terms ts e s) → is_Some (match_terms (Star cs :: ts) e s).
Proof.
  intros H. rewrite match_terms_star. destruct s as [|c s]; [assumption|].
  destruct (cs_mem cs c); [|assumption].
  destruct (match_terms (Star cs :: ts) e s); [eauto|assumption].
Qed.

Lemma match_terms_complete ts e p rest :
  denotes ts p → (e = true → rest = []) →
  is_Some (match_terms ts e (p ++ rest)).
Proof.
  revert p. induction ts as [|t ts IH]; intros p Hd He.
  - simpl in Hd. subst p. simpl. destruct e; [rewrite He by reflexivity|]; eauto.
  - destruct t as [cs|cs]; simpl in Hd.
    + destruct Hd as (c & s' & -> & Hc & Hd). simpl. rewrite Hc.
      destruct (IH _ Hd He) as [m Hm]. rewrite Hm. simpl. eauto.
    + destruct Hd as (xs & s' & -> & Hall & Hd).
      induction Hall as [|c xs Hc Hall IHxs].
      * apply match_terms_skip_star. simpl. auto.
      * rewrite match_terms_star. simpl. rewrite Hc.
        destruct IHxs as [m Hm]. simpl in Hm. rewrite Hm. eauto.
Qed.

(** With [$], the matcher succeeds exactly on the denoted strings. *)
Lemma match_terms_whole ts s :
  is_Some (match_terms ts true s) ↔ denotes ts s.
Proof.
  split.
  - intros [n Hn]. destruct (match_terms_sound _ _ _ _ Hn) as (_ & Hd & He).
    rewrite (He eq_refl), firstn_all in Hd. exact Hd.
  - intros Hd. pose proof (match_terms_complete ts true s [] Hd (λ _, eq_refl)) as H.
    rewrite app_nil_r in H. exact H.
Qed.

(** The search loop when the pattern starts with [^]. *)
Lemma search_anchored r i s :
  anchored_start r = true → search r (S i) s = None.
Proof.
  intros Ha. revert i. induction s as [|c s IH]; intros i; simpl;
    unfold attempt; rewrite Ha; simpl; auto.
Qed.

Lemma js_match_anchored r s :
  anchored_start r = true →
  js_match s r =
  match match_terms (body r) (anchored_end r) s with
  | Some n => Some (mkMatch (take n s) 0)
  | None => None
  end.
Proof.
  intros Ha. unfold js_match.
  destruct s as [|c s]; simpl; unfold attempt; rewrite Ha; simpl;
    destruct (match_terms _ _ _); try reflexivity.
  rewrite search_anchored by assumption. reflexivity.
Qed.

(** The search loop without [^]: the leftmost start index that matches. *)
Lemma search_leftmost r i s :
  anchored_start r = false →
  match search r i s with
  | Some (j, n) =>
      ∃ k, j = (i + k)%nat ∧ (k ≤ length s)%nat ∧
           match_terms (body r) (anchored_end r) (drop k s) = Some n ∧
           ∀ k', (k' < k)%nat →
                 match_terms (body r) (anchored_end r) (drop k' s) = None
  | None =>
      ∀ k, (k ≤ length s)%nat →
           match_terms (body r) (anchored_end r) (drop k s) = None
  end.
Proof.
  intros Ha. revert i. induction s as [|c s IH]; intros i; simpl;
    unfold attempt; rewrite Ha; simpl.
  - destruct (match_terms (body r) (anchored_end r) []) as [n|] eqn:Hm.
    + exists 0%nat. repeat split; auto with lia.
    + intros k Hk. rewrite drop_nil. exact Hm.
  - destruct (match_terms (body r) (anchored_end r) (c :: s)) as [n|] eqn:Hm.
    + exists 0%nat. repeat split; auto with lia.
    + specialize (IH (S i)). destruct (search r (S i) s) as [[j n]|].
      * destruct IH as (k & -> & Hk & Hn & Hmin).
        exists (S k). repeat split; auto with lia.
        intros [|k'] Hlt; [exact Hm|]. simpl. apply Hmin. lia.
      * intros [|k] Hk; [exact Hm|]. simpl. apply IH. lia.
Qed.

End Matcher.

(** ** The three patterns, in words *)

Section Shapes.


Lemma Forall_lit d (xs : list N) :
  Forall (λ c, cs_mem (Lit d) c = true) xs ↔ Forall (λ c, c = d) xs.
Proof. apply Forall_iff. intros c. simpl. apply N.eqb_eq. Qed.

Lemma denotes_jsdoc_start s :
  denotes (body JSDOC_START) s ↔ jsdoc_start_shape s.
Proof.
  unfold jsdoc_start_shape, white. simpl. split.
  - intros (w1 & s1 & -> & H1 & c1 & s2 & -> & E1 & c2 & s3 & -> & E2 &
            c3 & s4 & -> & E3 & w2 & s5 & -> & H2 & ->).
    apply N.eqb_eq in E1, E2, E3. subst.
    exists w1, w2. rewrite app_nil_r. auto.
  - intros (w1 & w2 & -> & H1 & H2).
    exists w1, (utf16 "/**" ++ w2). repeat split; auto.
    exists SLASH, (ASTERISK :: ASTERISK :: w2). repeat split.
    exists ASTERISK, (ASTERISK :: w2). repeat split.
    exists ASTERISK, w2. repeat split.
    exists w2, []. rewrite app_nil_r. auto.
Qed.

Lemma denotes_opening s :
  denotes (body OPENING_BEFORE_CURSOR) s ↔ opening_shape s.
Proof.
  unfold opening_shape, white, asterisks. simpl. split.
  - intros (c & s1 & -> & E & stars & s2 & -> & H1 & ws & s3 & -> & H2 & ->).
    apply N.eqb_eq in E. subst. apply Forall_lit in H1.
    exists stars, ws. rewrite app_nil_r. auto.
  - intros (stars & ws & -> & H1 & H2).
    exists SLASH, (stars ++ ws). repeat split.
    exists stars, ws. repeat split; [by apply Forall_lit|].
    exists ws, []. rewrite app_nil_r. auto.
Qed.

Lemma denotes_closing s :
  denotes (body CLOSING_AFTER_CURSOR) s ↔ closing_shape s.
Proof.
  unfold closing_shape, white, asterisks. simpl. split.
  - intros (ws & s1 & -> & H1 & stars & s2 & -> & H2 & c & s3 & -> & E & ->).
    apply N.eqb_eq in E. subst. apply Forall_lit in H2.
    exists ws, stars. auto.
  - intros (ws & stars & -> & H1 & H2).
    exists ws, (stars ++ [SLASH]). repeat split; auto.
    exists stars, [SLASH]. repeat split; [by apply Forall_lit|].
    exists SLASH, []. auto.
Qed.

(** A string of the closing shape ends at its first [/]. *)
Lemma closing_shape_body s :
  closing_shape s → ∃ b, s = b ++ [SLASH] ∧ Forall (λ c, c ≠ SLASH) b.
Proof.
  intros (ws & stars & -> & H1 & H2). exists (ws ++ stars).
  rewrite <- app_assoc. split; [reflexivity|]. apply Forall_app. split.
  - eapply Forall_impl; [exact H1|]. intros c Hc ->. discriminate.
  - eapply Forall_impl; [exact H2|]. intros c -> ?. discriminate.
Qed.

Lemma first_occurrence_unique (x : N) (b b' r r' : list N) :
  Forall (λ c, c ≠ x) b → Forall (λ c, c ≠ x) b' →
  b ++ x :: r = b' ++ x :: r' → b = b'.
Proof.
  intros Hb. revert b'. induction Hb as [|c b Hc Hb IH]; intros b' Hb' E.
  - destruct Hb' as [|c' b' Hc' Hb']; [reflexivity|].
    simpl in E. inversion E; subst. contradiction.
  - destruct Hb' as [|c' b' Hc' Hb'].
    + simpl in E. inversion E; subst. contradiction.
    + simpl in E. inversion E; subst. f_equal. eauto.
Qed.

Lemma closing_shape_unique (s p p' : list N) :
  p `prefix_of` s → p' `prefix_of` s →
  closing_shape p → closing_shape p' → p = p'.
Proof.
  intros [k ->] [k' E] Hp Hp'.
  destruct (closing_shape_body _ Hp) as (b & -> & Hb).
  destruct (closing_shape_body _ Hp') as (b' & -> & Hb').
  rewrite <- !app_assoc in E. simpl in E.
  rewrite (first_occurrence_unique _ _ _ _ _ Hb Hb' E). reflexivity.
Qed.

Lemma js_match_opening s :
  match js_match s OPENING_BEFORE_CURSOR with
  | Some m =>
      matched m `suffix_of` s ∧ opening_shape (matched m) ∧
      ∀ suf, suf `suffix_of` s → opening_shape suf →
             (length suf ≤ length (matched m))%nat
  | None => ∀ suf, suf `suffix_of` s → ¬ opening_shape suf
  end.
Proof.
  unfold js_match.
  pose proof (search_leftmost OPENING_BEFORE_CURSOR 0 s eq_refl) as H.
  change (anchored_end OPENING_BEFORE_CURSOR) with true in H.
  assert (Hno : ∀ k suf, suf `suffix_of` s → opening_shape suf →
            length suf = (length s - k)%nat →
            match_terms (body OPENING_BEFORE_CURSOR) true (drop k s) ≠ None).
  { intros k suf [pre ->] Hs Hlen Hm.
    rewrite length_app in Hlen.
    assert (drop k (pre ++ suf) = suf) as E.
    { destruct (decide (k ≤ length pre)%nat).
      - apply drop_app_length'. lia.
      - assert (suf = []) as -> by (apply length_zero_iff_nil; lia).
        rewrite app_nil_r. apply drop_ge. lia. }
    rewrite E in Hm. apply denotes_opening, match_terms_whole in Hs.
    rewrite Hm in Hs. by destruct Hs. }
  destruct (search OPENING_BEFORE_CURSOR 0 s) as [[j n]|]; cbn [matched].
  - destruct H as (k & -> & Hk & Hn & Hmin).
    destruct (match_terms_sound _ _ _ _ Hn) as (_ & Hd & He).
    rewrite (He eq_refl), firstn_all in *. cbn [Nat.add].
    split; [apply suffix_drop|]. split; [by apply denotes_opening|].
    intros suf Hsuf Hs. rewrite length_drop.
    destruct (decide (length suf ≤ length s - k)%nat) as [|Hgt]; [assumption|].
    exfalso. pose proof (suffix_length _ _ Hsuf).
    apply (Hno (length s - length suf)%nat suf Hsuf Hs); [lia|].
    apply Hmin. lia.
  - intros suf Hsuf Hs. pose proof (suffix_length _ _ Hsuf).
    apply (Hno (length s - length suf)%nat suf Hsuf Hs); [lia|].
    apply H. lia.
Qed.

Lemma js_match_closing s :
  match js_match s CLOSING_AFTER_CURSOR with
  | Some m =>
      matched m `prefix_of` s ∧ closing_shape (matched m) ∧
      ∀ p, p `prefix_of` s → closing_shape p →
           (length p ≤ length (matched m))%nat
  | None => ∀ p, p `prefix_of` s → ¬ closing_shape p
  end.
Proof.
  rewrite js_match_anchored by reflexivity.
  change (anchored_end CLOSING_AFTER_CURSOR) with false.
  destruct (match_terms _ false s) as [n|] eqn:Hm; cbn [matched].
  - destruct (match_terms_sound _ _ _ _ Hm) as (_ & Hd & _).
    apply denotes_closing in Hd.
    split; [apply prefix_take|]. split; [assumption|].
    intros p Hp Hs.
    rewrite (closing_shape_unique s p (take n s) Hp (prefix_take _ _) Hs Hd).
    reflexivity.
  - intros p [k ->] Hs. apply denotes_closing in Hs.
    destruct (match_terms_complete _ false p k Hs) as [m Hm']; [discriminate|].
    congruence.
Qed.

Lemma js_match_jsdoc_start s :
  is_Some (js_match s JSDOC_START) ↔ jsdoc_start_shape s.
Proof.
  rewrite js_match_anchored by reflexivity.
  rewrite <- denotes_jsdoc_start, <- match_terms_whole.
  change (anchored_end JSDOC_START) with true.
  destruct (match_terms _ true s); split; intros [x Hx]; eauto; discriminate.
Qed.

Lemma js_match_length s r m :
  js_match s r = Some m → (length (matched m) ≤ length s)%nat.
Proof.
  unfold js_match. destruct (search r 0 s) as [[i n]|]; [|discriminate].
  intros H; inversion H; subst; simpl.
  rewrite length_take, length_drop. lia.
Qed.

End Shapes.

(** ** The completion item and the completion provider *)

Section Completion.


Lemma matched_length_nat m : matched_length m = Z.of_nat (match_len m).
Proof. destruct m; reflexivity. Qed.

Lemma match_len_le s r : (match_len (js_match s r) ≤ length s)%nat.
Proof.
  destruct (js_match s r) as [m|] eqn:E; simpl; [|lia].
  eapply js_match_length; eassumption.
Qed.

Lemma translate_left p n :
  (n ≤ character p)%nat →
  translate p 0 (- Z.of_nat n) = Some (mkPosition (line p) (character p - n)).
Proof.
  intros Hn. unfold translate.
  destruct (Z.ltb_spec (Z.of_nat (line p) + 0) 0); [lia|].
  destruct (Z.ltb_spec (Z.of_nat (character p) + - Z.of_nat n) 0); [lia|].
  simpl. do 2 f_equal; lia.
Qed.

Lemma translate_right p m :
  translate p 0 (Z.of_nat m) = Some (mkPosition (line p) (character p + m)).
Proof.
  unfold translate.
  destruct (Z.ltb_spec (Z.of_nat (line p) + 0) 0); [lia|].
  destruct (Z.ltb_spec (Z.of_nat (character p) + Z.of_nat m) 0); [lia|].
  simpl. do 2 f_equal; lia.
Qed.

Lemma Range_new_ordered l a b :
  (a ≤ b)%nat →
  Range_new (mkPosition l a) (mkPosition l b) =
  mkRange (mkPosition l a) (mkPosition l b).
Proof.
  intros Hab. unfold Range_new, isBefore. simpl.
  rewrite Nat.ltb_irrefl, Nat.eqb_refl. simpl.
  destruct (Nat.ltb_spec a b) as [Hlt|Hge]; [reflexivity|].
  assert (a = b) as -> by lia. reflexivity.
Qed.

(** The range in closed form: both [translate] calls succeed, and the
    constructor of [Range] has nothing to swap. *)
Lemma retrieveRange_closed_form text position :
  let n := match_len (js_match (slice_to text (character position))
                               OPENING_BEFORE_CURSOR) in
  let m := match_len (js_match (slice_from text (character position))
                               CLOSING_AFTER_CURSOR) in
  (n ≤ character position)%nat ∧
  retrieveRange text position =
  Some (mkRange (mkPosition (line position) (character position - n))
                (mkPosition (line position) (character position + m))).
Proof.
  intros n m.
  assert (Hn : (n ≤ character position)%nat).
  { subst n. etransitivity; [apply match_len_le|].
    unfold slice_to. rewrite length_take. lia. }
  split; [assumption|].
  unfold retrieveRange. rewrite !matched_length_nat. fold n m.
  rewrite (translate_left _ _ Hn), translate_right. simpl.
  rewrite Range_new_ordered by lia. reflexivity.
Qed.

Lemma opening_shape_nonempty s : opening_shape s → s ≠ [].
Proof. intros (? & ? & -> & _). discriminate. Qed.

Lemma match_len_opening s :
  longest_suffix_length opening_shape s
    (match_len (js_match s OPENING_BEFORE_CURSOR)).
Proof.
  pose proof (js_match_opening s) as H.
  destruct (js_match s OPENING_BEFORE_CURSOR) as [m|]; simpl.
  - left. destruct H as (H1 & H2 & H3). exists (matched m). auto.
  - right. auto.
Qed.

Lemma match_len_closing s :
  longest_prefix_length closing_shape s
    (match_len (js_match s CLOSING_AFTER_CURSOR)).
Proof.
  pose proof (js_match_closing s) as H.
  destruct (js_match s CLOSING_AFTER_CURSOR) as [m|]; simpl.
  - left. destruct H as (H1 & H2 & H3). exists (matched m). auto.
  - right. auto.
Qed.

(** C10. For every line and position, [retrieveRange] returns a range on
    the line of the position.  Its start is the position moved left by
    the length [n] of the longest suffix of the text before the cursor
    that is [/], then zero or more [*], then whitespace ([n = 0] when
    there is none); its end is the position moved right by the length [m]
    of the longest prefix of the text after the cursor that is
    whitespace, then zero or more [*], then [/] ([m = 0] when there is
    none).  So start <= position <= end, and the range is the position
    itself when neither side matches. *)
Theorem retrieveRange_spec (text : list N) (position : Position) :
  ∃ (r : Range) (n m : nat),
    retrieveRange text position = Some r ∧
    longest_suffix_length opening_shape
      (slice_to text (character position)) n ∧
    longest_prefix_length closing_shape
      (slice_from text (character position)) m ∧
    (n ≤ character position)%nat ∧
    range_start r = mkPosition (line position) (character position - n) ∧
    range_end r = mkPosition (line position) (character position + m) ∧
    isBeforeOrEqual (range_start r) position = true ∧
    isBeforeOrEqual position (range_end r) = true ∧
    ((∀ suf, suf `suffix_of` slice_to text (character position) →
             ¬ opening_shape suf) ∧
     (∀ p, p `prefix_of` slice_from text (character position) →
           ¬ closing_shape p) →
     r = mkRange position position).
Proof.
  destruct (retrieveRange_closed_form text position) as [Hn Hr].
  set (pre := slice_to text (character position)) in *.
  set (post := slice_from text (character position)) in *.
  set (n := match_len (js_match pre OPENING_BEFORE_CURSOR)) in *.
  set (m := match_len (js_match post CLOSING_AFTER_CURSOR)) in *.
  eexists _, n, m. split; [exact Hr|].
  split; [apply match_len_opening|]. split; [apply match_len_closing|].
  split; [exact Hn|]. split; [reflexivity|]. split; [reflexivity|].
  unfold isBeforeOrEqual. simpl. rewrite Nat.eqb_refl. simpl.
  split; [apply orb_true_iff; right; apply Nat.leb_le; lia|].
  split; [apply orb_true_iff; right; apply Nat.leb_le; lia|].
  intros [Hno1 Hno2].
  assert (n = 0%nat) as ->.
  { subst n. pose proof (js_match_opening pre) as H.
    destruct (js_match pre OPENING_BEFORE_CURSOR) as [x|]; [|reflexivity].
    destruct H as (H1 & H2 & _). destruct (Hno1 _ H1 H2). }
  assert (m = 0%nat) as ->.
  { subst m. pose proof (js_match_closing post) as H.
    destruct (js_match post CLOSING_AFTER_CURSOR) as [x|]; [|reflexivity].
    destruct H as (H1 & H2 & _). destruct (Hno2 _ H1 H2). }
  rewrite Nat.sub_0_r, Nat.add_0_r. destruct position; reflexivity.
Qed.

Lemma JsdocCompletionItem_new_total text position :
  is_Some (JsdocCompletionItem_new text position).
Proof.
  destruct (retrieveRange_closed_form text position) as [_ Hr].
  unfold JsdocCompletionItem_new. rewrite Hr. simpl. eauto.
Qed.

(** C9. The constructor always succeeds, and the item it builds has the
    label [/** Autogenerated JSDoc */], the kind [Snippet], an empty
    [insertText], the one-character [sortText] NUL, and the command
    [jsdoc-generator.generateJsdoc]; that identifier is the one under
    which [activate] registers the single-node handler. *)
Theorem JsdocCompletionItem_new_fields (text : list N) (position : Position) :
  ∃ item,
    JsdocCompletionItem_new text position = Some item ∧
    label item = "/** Autogenerated JSDoc */" ∧
    kind item = Snippet ∧
    insertText item = "" ∧
    sortText item = String (ascii_of_nat 0) "" ∧
    retrieveRange text position = Some (range item) ∧
    item_command item =
      {| title := "Generate JSDoc"; command := "jsdoc-generator.generateJsdoc" |} ∧
    ∀ context g e c p k,
      commands (world_after (activate context (mkWorld g e c ∅ p k)))
        !! command (item_command item) = Some GenerateJsdoc.
Proof.
  destruct (retrieveRange_closed_form text position) as [_ Hr].
  unfold JsdocCompletionItem_new. rewrite Hr. simpl.
  eexists. split; [reflexivity|]. simpl.
  repeat (split; [reflexivity|]).
  intros. vm_compute. reflexivity.
Qed.

(** C8. On a line of the document, the provider returns one completion
    item exactly when the text before the cursor is whitespace, [/**],
    whitespace; otherwise it returns [null]. *)
Theorem provideCompletionItems_spec
    (document : TextDocument) (position : Position) (text : list N) :
  lineAt document (line position) = Some text →
  ((∃ item, provideCompletionItems document position = Some (Items [item]))
     ↔ jsdoc_start_shape (slice_to text (character position))) ∧
  (jsdoc_start_shape (slice_to text (character position)) →
     ∃ item, JsdocCompletionItem_new text position = Some item ∧
             provideCompletionItems document position = Some (Items [item])) ∧
  (¬ jsdoc_start_shape (slice_to text (character position)) →
     provideCompletionItems document position = Some Null).
Proof.
  intros Hline. unfold provideCompletionItems. rewrite Hline. simpl.
  pose proof (js_match_jsdoc_start (slice_to text (character position))) as Hm.
  destruct (JsdocCompletionItem_new_total text position) as (item & Hitem).
  destruct (js_match (slice_to text (character position)) JSDOC_START) as [x|].
  - rewrite Hitem. simpl.
    assert (jsdoc_start_shape (slice_to text (character position))) as Hs
      by (apply Hm; eauto).
    split; [split; eauto|]. split; [eauto|]. intros Hn. destruct (Hn Hs).
  - assert (¬ jsdoc_start_shape (slice_to text (character position))) as Hs.
    { intros Hs. apply Hm in Hs. destruct Hs; discriminate. }
    split; [split; [intros [? ?]; discriminate|intros H; destruct (Hs H)]|].
    split; [intros H; destruct (Hs H)|reflexivity].
Qed.

Lemma provideCompletionItems_spec_witness :
  let document := [utf16 "function f() {}"; utf16 "  /** */"] in
  let position := mkPosition 1 5 in
  let text := utf16 "  /** */" in
  lineAt document (line position) = Some text ∧
  ((∃ item, provideCompletionItems document position = Some (Items [item]))
     ↔ jsdoc_start_shape (slice_to text (character position))) ∧
  (jsdoc_start_shape (slice_to text (character position)) →
     ∃ item, JsdocCompletionItem_new text position = Some item ∧
             provideCompletionItems document position = Some (Items [item])) ∧
  (¬ jsdoc_start_shape (slice_to text (character position)) →
     provideCompletionItems document position = Some Null).
Proof.
  split; [reflexivity|].
  exact (provideCompletionItems_spec
           [utf16 "function f() {}"; utf16 "  /** */"] (mkPosition 1 5)
           (utf16 "  /** */") eq_refl).
Defined.

(** The provider and the range on a line with an opened and closed
    comment, the cursor after [/**]: the range covers the comment. *)
Example provide_inside_comment :
  provideCompletionItems [utf16 "function f() {}"; utf16 "  /** */"]
    (mkPosition 1 5) =
  Some (Items
    [ {| label := "/** Autogenerated JSDoc */";
         kind := Snippet;
         insertText := "";
         sortText := String (ascii_of_nat 0) "";
         range := mkRange (mkPosition 1 2) (mkPosition 1 8);
         item_command :=
           {| title := "Generate JSDoc";
              command := "jsdoc-generator.generateJsdoc" |} |} ]).
Proof. reflexivity. Qed.

Example provide_after_code :
  provideCompletionItems [utf16 "x = 1; /**"] (mkPosition 0 10) = Some Null.
Proof. reflexivity. Qed.

Example retrieveRange_plain_text :
  retrieveRange (utf16 "let x = 1;") (mkPosition 4 3) =
  Some (mkRange (mkPosition 4 3) (mkPosition 4 3)).
Proof. reflexivity. Qed.

End Completion.

(** ** The command handlers *)

Section Commands.

(** A goal about every call of a computed trace, which has one call or
    none. *)
Ltac calls_of_trace :=
  let H := fresh "H" in
  intros ? ? H;
  first [ destruct H as [H|[]]; inversion H; subst; auto | destruct H ].

Lemma bind_run {A B} (m : M A) (f : A → M B) w :
  bind m f w =
  match m w with
  | (Some a, w1, t1) =>
      (result (f a w1), world_after (f a w1), t1 ++ trace (f a w1))
  | (None, w1, t1) => (None, w1, t1)
  end.
Proof.
  unfold bind, result, world_after, trace.
  destruct (m w) as [[[a|] w1] t1]; [|reflexivity].
  destruct (f a w1) as [[b w2] t2]. reflexivity.
Qed.

(** C2. The single-node command.  Without an active editor the error
    message [Unable to generate JSDoc: no editor has been selected.] is
    shown, the generator is not called, and the progress task returns a
    resolved promise; with an active editor the generator is called once,
    on that editor, and no error is shown.  The handler returns normally
    in both cases. *)
Theorem generateJsdoc_command (w : World) (arg : option Uri) :
  let r := handler GenerateJsdoc arg w in
  result r = Some tt ∧
  match activeTextEditor w with
  | None =>
      errors_shown (trace r) =
        ["Unable to generate JSDoc: no editor has been selected."] ∧
      invocations (trace r) = [] ∧
      result (withProgress (progress_options "JSDocGen (node)")
                generateJsdoc_task w) = Some Resolved
  | Some editor =>
      errors_shown (trace r) = [] ∧
      ∃ g p t,
        invocations (trace r) = [(g, Call_generateJsdoc p t editor)] ∧
        jsdocGenerator (world_after r) = Some g
  end.
Proof.
  destruct w as [[g|] [e|] c cs ps k]; cbn; repeat split; eauto.
Qed.

(** C3. The file command.  With a [Uri] argument the generator runs on
    the [TextFile] of that [Uri] and of a [WorkspaceEdit] created for
    this run; otherwise, with an active editor, on the [TextFile] of the
    editor; otherwise the error message
    [Unable to generate JSDoc: no valid file has been selected.] is
    shown, the generator is not called, and the task returns a resolved
    promise.  The handler returns normally in all cases. *)
Theorem generateJsdocFile_command (w : World) (file : option Uri) :
  let r := handler GenerateJsdocFile file w in
  result r = Some tt ∧
  match file, activeTextEditor w with
  | Some uri, _ =>
      errors_shown (trace r) = [] ∧
      ∃ g p t k,
        invocations (trace r) =
          [(g, Call_generateJsdocFile p t
                 (TextFile_of_uri (mkWorkspaceEdit k) uri))] ∧
        (next_ref w ≤ k < next_ref (world_after r))%nat
  | None, Some editor =>
      errors_shown (trace r) = [] ∧
      ∃ g p t,
        invocations (trace r) =
          [(g, Call_generateJsdocFile p t (TextFile_of_editor editor))]
  | None, None =>
      errors_shown (trace r) =
        ["Unable to generate JSDoc: no valid file has been selected."] ∧
      invocations (trace r) = [] ∧
      result (withProgress (progress_options "JSDocGen (file)")
                (generateJsdocFile_task file) w) = Some Resolved
  end.
Proof.
  destruct w as [[g|] [e|] c cs ps k], file as [uri|]; cbn;
    repeat split; eauto; do 4 eexists; (split; [reflexivity|lia]).
Qed.

(** C4. Activation registers four commands and no other: node, file,
    folder and workspace (and the completion provider, which is not a
    command).  Every handler opens a cancellable progress and runs its
    task inside.  Whenever the command has a target (the folder and
    workspace commands always, the node command with an active editor,
    the file command with a [Uri] or an active editor) the handler makes
    exactly one generator call, to the entry point of its command, with
    the progress reporter and the cancellation token of that progress;
    without a target it makes no call.  The folder command always calls
    the workspace entry point with the folder it was given; the
    workspace command always calls it without a folder. *)
Theorem activate_commands :
  (∀ context g e c p k,
     let r := activate context (mkWorld g e c ∅ p k) in
     result r =
       Some {| subscriptions :=
                 subscriptions context ++
                 [CommandRegistration "jsdoc-generator.generateJsdoc";
                  CommandRegistration "jsdoc-generator.generateJsdocFile";
                  CommandRegistration "jsdoc-generator.generateJsdocFolder";
                  CommandRegistration "jsdoc-generator.generateJsdocWorkspace";
                  CompletionProviderRegistration COMPLETION_SELECTOR] |} ∧
     commands (world_after r) =
       list_to_map
         [("jsdoc-generator.generateJsdoc", GenerateJsdoc);
          ("jsdoc-generator.generateJsdocFile", GenerateJsdocFile);
          ("jsdoc-generator.generateJsdocFolder", GenerateJsdocFolder);
          ("jsdoc-generator.generateJsdocWorkspace", GenerateJsdocWorkspace)] ∧
     size (commands (world_after r)) = 4%nat) ∧
  (∀ h arg w,
     ∃ options p t w',
       trace (handler h arg w) =
         WithProgress options p t :: trace (task_of h arg p t w') ∧
       location options = Notification ∧
       cancellable options = true ∧
       if has_target h arg w then
         ∃ g c, invocations (trace (handler h arg w)) = [(g, c)] ∧
                entry_point c = entry_point_of h ∧
                call_progress c = p ∧ call_token c = t
       else invocations (trace (handler h arg w)) = []) ∧
  (∀ folder w,
     ∃ options g p t rest,
       trace (handler GenerateJsdocFolder folder w) =
         WithProgress options p t :: rest ∧
       invocations (trace (handler GenerateJsdocFolder folder w)) =
         [(g, Call_generateJsdocWorkspace p t folder)]) ∧
  (∀ arg w,
     ∃ options g p t rest,
       trace (handler GenerateJsdocWorkspace arg w) =
         WithProgress options p t :: rest ∧
       invocations (trace (handler GenerateJsdocWorkspace arg w)) =
         [(g, Call_generateJsdocWorkspace p t None)]).
Proof.
  split; [|split; [|split]].
  - intros. subst r. vm_compute. auto.
  - intros h arg [g e c cs ps k].
    exists (progress_options
              match h with
              | GenerateJsdoc => "JSDocGen (node)"
              | GenerateJsdocFile => "JSDocGen (file)"
              | GenerateJsdocFolder => "JSDocGen (folder)"
              | GenerateJsdocWorkspace => "JSDocGen (workspace)"
              end),
           (mkProgress k), (mkCancellationToken (S k)),
           (mkWorld g e c cs ps (S (S k))).
    destruct h, g as [g|], e as [e|], arg as [uri|]; cbn;
      do 3 (split; [reflexivity|]);
      first [ reflexivity | do 2 eexists; repeat split ].
  - intros folder [[g|] e c cs ps k]; cbn; do 5 eexists; split; reflexivity.
  - intros arg [[g|] e c cs ps k]; cbn; do 5 eexists; split; reflexivity.
Qed.

(** *** The generator object *)

Lemma constructed_app t1 t2 :
  constructed (t1 ++ t2) = constructed t1 ++ constructed t2.
Proof. apply omap_app. Qed.

Lemma invocations_app t1 t2 :
  invocations (t1 ++ t2) = invocations t1 ++ invocations t2.
Proof. apply omap_app. Qed.

(** One invocation: it returns normally, leaves the module variable set,
    constructs an engine only when the variable was not set, and calls
    only the engine of the variable. *)
Lemma invoke_command_engine (i : Invocation) (w : World) :
  let r := invoke_command i w in
  result r = Some tt ∧
  ∃ g, jsdocGenerator (world_after r) = Some g ∧
       constructed (trace r) =
         match jsdocGenerator w with Some _ => [] | None => [g] end ∧
       (∀ g0, jsdocGenerator w = Some g0 → g = g0) ∧
       ∀ g' c, In (g', c) (invocations (trace r)) → g' = g.
Proof.
  destruct i as [editor h arg], w as [[g|] e c cs ps k].
  - destruct h, editor as [ed|], arg as [uri|]; cbn;
      (split; [reflexivity|]); exists g; repeat split; try congruence;
      calls_of_trace.
  - destruct h, editor as [ed|], arg as [uri|]; cbn;
      (split; [reflexivity|]); eexists; repeat split; try congruence;
      calls_of_trace.
Qed.

Lemma session_cons i invs w :
  result (invoke_command i w) = Some tt →
  result (session (i :: invs) w) =
    result (session invs (world_after (invoke_command i w))) ∧
  world_after (session (i :: invs) w) =
    world_after (session invs (world_after (invoke_command i w))) ∧
  trace (session (i :: invs) w) =
    trace (invoke_command i w) ++
    trace (session invs (world_after (invoke_command i w))).
Proof.
  cbn [session]. rewrite bind_run.
  unfold result, world_after, trace.
  destruct (invoke_command i w) as [[[[]|] w1] t1]; cbn; [auto|discriminate].
Qed.

(** A session started with the engine already there: nothing is
    constructed, and every call goes to that engine. *)
Lemma session_engine_set invs : ∀ w g,
  jsdocGenerator w = Some g →
  let r := session invs w in
  result r = Some tt ∧
  jsdocGenerator (world_after r) = Some g ∧
  constructed (trace r) = [] ∧
  ∀ g' c, In (g', c) (invocations (trace r)) → g' = g.
Proof.
  induction invs as [|i invs IH]; intros w g Hg.
  - cbn. repeat split; auto. intros ? ? [].
  - cbv zeta.
    destruct (invoke_command_engine i w) as (Hr & g1 & Hw & Hc & Hsame & Hcalls).
    destruct (session_cons i invs w Hr) as (-> & -> & ->).
    rewrite Hg in Hc. rewrite (Hsame _ Hg) in *.
    destruct (IH _ _ Hw) as (Hr' & Hw' & Hc' & Hcalls').
    rewrite constructed_app, invocations_app, Hc, Hc'.
    repeat split; auto.
    intros g' c' Hin. apply in_app_or in Hin. destruct Hin; eauto.
Qed.

(** C1, as amended.  The engine is a module-level variable: in a
    session of command invocations that starts with the variable not
    set, every invocation returns normally, one engine object is
    constructed in all (none when no command runs), and every generator
    call of every invocation is made on that one object, which stays in
    the module variable. *)
Theorem engine_is_shared (invs : list Invocation) (w : World) :
  jsdocGenerator w = None →
  let r := session invs w in
  result r = Some tt ∧
  length (constructed (trace r)) = (if invs is [] then 0 else 1)%nat ∧
  ∀ g, observes (trace r) g →
       constructed (trace r) = [g] ∧
       jsdocGenerator (world_after r) = Some g.
Proof.
  intros Hw. destruct invs as [|i invs].
  - cbn. repeat split; auto; destruct H as [? []].
  - cbv zeta.
    destruct (invoke_command_engine i w) as (Hr & g1 & Hw1 & Hc & _ & Hcalls).
    destruct (session_cons i invs w Hr) as (-> & -> & ->).
    rewrite Hw in Hc.
    destruct (session_engine_set invs _ _ Hw1) as (Hr' & Hw' & Hc' & Hcalls').
    rewrite constructed_app, Hc, Hc'.
    split; [assumption|]. split; [reflexivity|].
    intros g [c Hin]. rewrite invocations_app in Hin.
    apply in_app_or in Hin.
    assert (g = g1) as -> by (destruct Hin; eauto).
    auto.
Qed.

(** Its use on a session of two commands from the loaded module. *)
Lemma engine_is_shared_witness :
  let invs := [mkInvocation None GenerateJsdocFolder (Some (mkUri "src"));
               mkInvocation (Some (mkTextEditor 7)) GenerateJsdoc None] in
  let r := session invs (loaded None ∅) in
  result r = Some tt ∧
  length (constructed (trace r)) = 1%nat ∧
  ∀ g, observes (trace r) g →
       constructed (trace r) = [g] ∧
       jsdocGenerator (world_after r) = Some g.
Proof.
  exact (engine_is_shared
           [mkInvocation None GenerateJsdocFolder (Some (mkUri "src"));
            mkInvocation (Some (mkTextEditor 7)) GenerateJsdoc None]
           (loaded None ∅) eq_refl).
Defined.

(** C1, as the claim has it, fails: the workspace command that follows
    the folder command calls the engine the folder command created. *)
Lemma isolated_counterexample :
  ¬ isolated (loaded None ∅)
      (mkInvocation None GenerateJsdocFolder (Some (mkUri "src")))
      (mkInvocation None GenerateJsdocWorkspace None).
Proof.
  intros H. destruct (H (mkJsdocGenerator 2)) as [H1 _].
  apply H1.
  - left. reflexivity.
  - eexists. left. reflexivity.
Qed.

(** *** The configuration accessor *)

(** C5. [getConfig] reads the settings store as it is at the time of the
    call, returns the value under the key [jsdoc-generator.] followed by
    the property name, or the default when the store has no value
    there, and leaves the store (and the rest of the world) as it was;
    a setting changed between two calls is seen by the second. *)
Theorem getConfig_spec (property : ConfigKey) (defaultValue : ConfigValue)
    (w : World) :
  getConfig property defaultValue w =
    (Some (default defaultValue
             (configuration w !! ("jsdoc-generator." +:+ key_name property))),
     w, []) ∧
  (∀ v, configuration w !! ("jsdoc-generator." +:+ key_name property) = Some v →
        result (getConfig property defaultValue w) = Some v) ∧
  (configuration w !! ("jsdoc-generator." +:+ key_name property) = None →
   result (getConfig property defaultValue w) = Some defaultValue) ∧
  ∀ v,
    result ((getConfig property defaultValue ;;
             updateSetting ("jsdoc-generator." +:+ key_name property) v ;;
             getConfig property defaultValue) w) = Some v.
Proof.
  set (key := "jsdoc-generator." +:+ key_name property).
  assert (Hread : ∀ w', result (getConfig property defaultValue w') =
                        Some (default defaultValue (configuration w' !! key)))
    by reflexivity.
  split; [reflexivity|]. split; [|split].
  - intros v Hv. rewrite Hread, Hv. reflexivity.
  - intros Hv. rewrite Hread, Hv. reflexivity.
  - intros v.
    change (result ((getConfig property defaultValue ;;
                     updateSetting key v ;;
                     getConfig property defaultValue) w))
      with (Some (default defaultValue (<[key := v]> (configuration w) !! key))).
    rewrite lookup_insert_eq. reflexivity.
Qed.

End Commands.

(** ** More on the completion item and its range *)

Section RangeOfComment.

Lemma opening_shape_no_inner_slash s k :
  opening_shape s → opening_shape (k ++ s) → k = [].
Proof.
  intros (st1 & ws1 & -> & _ & _) (st2 & ws2 & E & Hst & Hws).
  destruct k as [|c k]; [reflexivity|]. exfalso.
  simpl in E. inversion E as [[Ec Et]]. clear E.
  assert (Hno : Forall (λ c, c ≠ SLASH) (st2 ++ ws2)).
  { apply Forall_app. split.
    - eapply Forall_impl; [exact Hst|]. intros x -> ?. discriminate.
    - eapply Forall_impl; [exact Hws|]. intros x Hx ->. discriminate. }
  rewrite <- Et in Hno. apply Forall_app in Hno as [_ Hno].
  inversion Hno as [|? ? Hne _]. apply Hne. reflexivity.
Qed.

Lemma opening_suffix_unique (l s1 s2 : list N) :
  s1 `suffix_of` l → s2 `suffix_of` l →
  opening_shape s1 → opening_shape s2 → s1 = s2.
Proof.
  intros H1 H2 Ho1 Ho2.
  destruct (suffix_weak_total _ _ _ H1 H2) as [[k ->]|[k ->]].
  - rewrite (opening_shape_no_inner_slash _ _ Ho1 Ho2). reflexivity.
  - rewrite (opening_shape_no_inner_slash _ _ Ho2 Ho1). reflexivity.
Qed.

Lemma match_len_opening_at (a stars ws : list N) :
  asterisks stars → white ws →
  match_len (js_match (a ++ SLASH :: stars ++ ws) OPENING_BEFORE_CURSOR) =
  S (length stars + length ws).
Proof.
  intros Hst Hws.
  assert (Hs : opening_shape (SLASH :: stars ++ ws)) by (exists stars, ws; auto).
  assert (Hsuf : (SLASH :: stars ++ ws) `suffix_of` (a ++ SLASH :: stars ++ ws))
    by (exists a; reflexivity).
  pose proof (js_match_opening (a ++ SLASH :: stars ++ ws)) as H.
  destruct (js_match _ OPENING_BEFORE_CURSOR) as [m|]; simpl.
  - destruct H as (H1 & H2 & _).
    rewrite (opening_suffix_unique _ _ _ H1 Hsuf H2 Hs).
    simpl. rewrite length_app. reflexivity.
  - destruct (H _ Hsuf Hs).
Qed.

Lemma match_len_closing_at (ws stars rest : list N) :
  white ws → asterisks stars →
  match_len (js_match (ws ++ stars ++ SLASH :: rest) CLOSING_AFTER_CURSOR) =
  (length ws + length stars + 1)%nat.
Proof.
  intros Hws Hst.
  assert (Hs : closing_shape (ws ++ stars ++ [SLASH])) by (exists ws, stars; auto).
  assert (Hp : (ws ++ stars ++ [SLASH]) `prefix_of` (ws ++ stars ++ SLASH :: rest)).
  { exists rest. rewrite <- !app_assoc. reflexivity. }
  pose proof (js_match_closing (ws ++ stars ++ SLASH :: rest)) as H.
  destruct (js_match _ CLOSING_AFTER_CURSOR) as [m|]; simpl.
  - destruct H as (H1 & H2 & _).
    rewrite (closing_shape_unique _ _ _ H1 Hp H2 Hs).
    rewrite !length_app. simpl. lia.
  - destruct (H _ Hp Hs).
Qed.

(** X1. With the cursor on the line, when the text before the cursor
    ends with [/], any number of [*] and any whitespace, the range
    starts at that [/], whatever stands in front of it and whatever
    follows the cursor. *)
Theorem retrieveRange_starts_at_slash
    (text : list N) (position : Position) (a stars ws : list N) :
  (character position ≤ length text)%nat →
  slice_to text (character position) = a ++ SLASH :: stars ++ ws →
  asterisks stars → white ws →
  ∃ r, retrieveRange text position = Some r ∧
       range_start r = mkPosition (line position) (length a).
Proof.
  intros Hon Hpre Hst Hws.
  destruct (retrieveRange_closed_form text position) as [_ Hr].
  cbv zeta in Hr. rewrite Hpre, match_len_opening_at in Hr by assumption.
  eexists. split; [exact Hr|]. simpl. f_equal.
  assert (Hlen : length (slice_to text (character position)) = character position)
    by (unfold slice_to; rewrite length_take; lia).
  rewrite Hpre, length_app in Hlen. simpl in Hlen.
  rewrite length_app in Hlen. lia.
Qed.

Lemma retrieveRange_starts_at_slash_witness :
  ∃ r, retrieveRange (utf16 "x = 1; /** ") (mkPosition 3 11) = Some r ∧
       range_start r = mkPosition 3 7.
Proof.
  apply (retrieveRange_starts_at_slash
           (utf16 "x = 1; /** ") (mkPosition 3 11)
           (utf16 "x = 1; ") [ASTERISK; ASTERISK] [32]).
  - simpl. lia.
  - reflexivity.
  - repeat constructor.
  - repeat constructor.
Defined.

(** X2. When the text from the cursor on is whitespace, any number of
    [*] and then [/], the range ends just behind that [/], whatever
    follows it and whatever stands before the cursor. *)
Theorem retrieveRange_ends_behind_slash
    (text : list N) (position : Position) (ws stars rest : list N) :
  slice_from text (character position) = ws ++ stars ++ SLASH :: rest →
  white ws → asterisks stars →
  ∃ r, retrieveRange text position = Some r ∧
       range_end r =
         mkPosition (line position)
           (character position + (length ws + length stars + 1)).
Proof.
  intros Hpost Hws Hst.
  destruct (retrieveRange_closed_form text position) as [_ Hr].
  cbv zeta in Hr. rewrite Hpost, match_len_closing_at in Hr by assumption.
  eexists. split; [exact Hr|]. reflexivity.
Qed.

Lemma retrieveRange_ends_behind_slash_witness :
  ∃ r, retrieveRange (utf16 "/** */ f();") (mkPosition 0 3) = Some r ∧
       range_end r = mkPosition 0 (3 + (1 + 1 + 1)).
Proof.
  apply (retrieveRange_ends_behind_slash
           (utf16 "/** */ f();") (mkPosition 0 3)
           [32] [ASTERISK] (utf16 " f();")).
  - reflexivity.
  - repeat constructor.
  - repeat constructor.
Defined.

(** X3. The range never reaches past the end of the line or the cursor,
    whichever is further right; with the cursor at the end of the line
    or behind it, the range ends at the cursor. *)
Theorem retrieveRange_end_bound (text : list N) (position : Position) :
  ∃ r, retrieveRange text position = Some r ∧
       (character (range_end r) ≤ Nat.max (character position) (length text))%nat ∧
       ((length text ≤ character position)%nat → range_end r = position).
Proof.
  destruct (retrieveRange_closed_form text position) as [_ Hr].
  cbv zeta in Hr. eexists. split; [exact Hr|]. simpl.
  pose proof (match_len_le (slice_from text (character position))
                CLOSING_AFTER_CURSOR) as Hm.
  unfold slice_from in Hm at 2. rewrite length_drop in Hm.
  split; [lia|]. intros Hend.
  replace (match_len _) with 0%nat by lia.
  rewrite Nat.add_0_r. destruct position; reflexivity.
Qed.

(** X4. When the provider offers its item for a cursor on the line, the
    range of the item starts at the [/] of the [/**] the user typed,
    behind the indentation, and does not end before the cursor: the
    edit that replaces the range takes the typed opener away. *)
Theorem provideCompletionItems_range
    (document : TextDocument) (position : Position) (text w1 w2 : list N) :
  lineAt document (line position) = Some text →
  (character position ≤ length text)%nat →
  slice_to text (character position) = w1 ++ utf16 "/**" ++ w2 →
  white w1 → white w2 →
  ∃ item,
    provideCompletionItems document position = Some (Items [item]) ∧
    range_start (range item) = mkPosition (line position) (length w1) ∧
    isBeforeOrEqual position (range_end (range item)) = true.
Proof.
  intros Hline Hon Hpre Hw1 Hw2.
  assert (Hshape : jsdoc_start_shape (slice_to text (character position)))
    by (exists w1, w2; auto).
  apply js_match_jsdoc_start in Hshape as [x Hx].
  destruct (retrieveRange_closed_form text position) as [_ Hr].
  cbv zeta in Hr.
  unfold provideCompletionItems, JsdocCompletionItem_new.
  rewrite Hline. simpl. rewrite Hx, Hr. simpl.
  eexists. split; [reflexivity|]. simpl.
  change (utf16 "/**" ++ w2) with (SLASH :: [ASTERISK; ASTERISK] ++ w2) in Hpre.
  rewrite Hpre, match_len_opening_at by (auto; repeat constructor).
  assert (Hlen : length (slice_to text (character position)) = character position)
    by (unfold slice_to; rewrite length_take; lia).
  rewrite Hpre, length_app in Hlen. simpl in Hlen.
  split.
  - f_equal. simpl. lia.
  - unfold isBeforeOrEqual. simpl. rewrite Nat.eqb_refl. simpl.
    apply orb_true_iff. right. apply Nat.leb_le. lia.
Qed.

Lemma provideCompletionItems_range_witness :
  ∃ item,
    provideCompletionItems [utf16 "f();"; utf16 "    /** */"] (mkPosition 1 7)
      = Some (Items [item]) ∧
    range_start (range item) = mkPosition 1 4 ∧
    isBeforeOrEqual (mkPosition 1 7) (range_end (range item)) = true.
Proof.
  apply (provideCompletionItems_range
           [utf16 "f();"; utf16 "    /** */"] (mkPosition 1 7)
           (utf16 "    /** */") (utf16 "    ") []).
  - reflexivity.
  - simpl. lia.
  - reflexivity.
  - repeat constructor.
  - constructor.
Defined.

(** X5. The provider throws exactly when the line of the position is
    not a line of the document; on every line of the document it
    returns an array or [null]. *)
Theorem provideCompletionItems_throws
    (document : TextDocument) (position : Position) :
  provideCompletionItems document position = None
  ↔ (length document ≤ line position)%nat.
Proof.
  unfold provideCompletionItems, lineAt.
  destruct (document !! line position) as [text|] eqn:Hl; simpl.
  - apply lookup_lt_Some in Hl.
    destruct (JsdocCompletionItem_new_total text position) as [item Hitem].
    rewrite Hitem. simpl.
    destruct (js_match _ JSDOC_START); split; try discriminate; lia.
  - apply lookup_ge_None in Hl. split; auto.
Qed.

Lemma opening_shape_delimiters s : opening_shape s → Forall delimiter_char s.
Proof.
  intros (stars & ws & -> & Hst & Hws). constructor; [left; reflexivity|].
  apply Forall_app. split.
  - eapply Forall_impl; [exact Hst|]. intros c ->. right. left. reflexivity.
  - eapply Forall_impl; [exact Hws|]. intros c Hc. right. right. exact Hc.
Qed.

Lemma closing_shape_delimiters s : closing_shape s → Forall delimiter_char s.
Proof.
  intros (ws & stars & -> & Hws & Hst). apply Forall_app. split.
  - eapply Forall_impl; [exact Hws|]. intros c Hc. right. right. exact Hc.
  - apply Forall_app. split.
    + eapply Forall_impl; [exact Hst|]. intros c ->. right. left. reflexivity.
    + constructor; [left; reflexivity|constructor].
Qed.

Lemma opening_part (s : list N) :
  ∃ x part, s = x ++ part ∧ Forall delimiter_char part ∧
            length part = match_len (js_match s OPENING_BEFORE_CURSOR).
Proof.
  pose proof (js_match_opening s) as H.
  destruct (js_match s OPENING_BEFORE_CURSOR) as [m|]; simpl.
  - destruct H as ([x ->] & Hs & _). exists x, (matched m).
    split; [reflexivity|]. split; [by apply opening_shape_delimiters|reflexivity].
  - exists s, []. rewrite app_nil_r. repeat constructor.
Qed.

Lemma closing_part (s : list N) :
  ∃ part y, s = part ++ y ∧ Forall delimiter_char part ∧
            length part = match_len (js_match s CLOSING_AFTER_CURSOR).
Proof.
  pose proof (js_match_closing s) as H.
  destruct (js_match s CLOSING_AFTER_CURSOR) as [m|]; simpl.
  - destruct H as ([y ->] & Hs & _). exists (matched m), y.
    split; [reflexivity|]. split; [by apply closing_shape_delimiters|reflexivity].
  - exists [], s. repeat constructor.
Qed.

(** X13. With the cursor on the line, the text the range covers has no
    character other than [/], [*] and whitespace: no letter, digit,
    quote, bracket or other operator is ever inside the range (a [/]
    or [*] that is an operator of the code can be). *)
Theorem retrieveRange_covers_delimiters (text : list N) (position : Position) :
  (character position ≤ length text)%nat →
  ∃ r, retrieveRange text position = Some r ∧
       Forall delimiter_char (covered text r).
Proof.
  intros Hon.
  destruct (retrieveRange_closed_form text position) as [Hn Hr].
  cbv zeta in Hn, Hr. eexists. split; [exact Hr|].
  unfold covered. simpl.
  destruct (opening_part (slice_to text (character position)))
    as (x & p1 & Hpre & Hp1 & Hl1).
  destruct (closing_part (slice_from text (character position)))
    as (p2 & y & Hpost & Hp2 & Hl2).
  rewrite <- Hl1, <- Hl2 in *.
  assert (Hlen : length (slice_to text (character position)) = character position)
    by (unfold slice_to; rewrite length_take; lia).
  rewrite Hpre, length_app in Hlen.
  assert (Htext : text = x ++ p1 ++ p2 ++ y).
  { rewrite <- (take_drop (character position) text).
    unfold slice_to, slice_from in Hpre, Hpost.
    rewrite Hpre, Hpost, <- app_assoc. reflexivity. }
  rewrite Htext.
  replace (character position - length p1)%nat with (length x) by lia.
  rewrite drop_app_length.
  replace (character position + length p2 - length x)%nat
    with (length (p1 ++ p2)) by (rewrite length_app; lia).
  rewrite app_assoc, take_app_length.
  apply Forall_app. auto.
Qed.

Lemma retrieveRange_covers_delimiters_witness :
  ∃ r, retrieveRange (utf16 "f(); /** */ g();") (mkPosition 0 8) = Some r ∧
       Forall delimiter_char (covered (utf16 "f(); /** */ g();") r).
Proof.
  apply (retrieveRange_covers_delimiters
           (utf16 "f(); /** */ g();") (mkPosition 0 8)).
  simpl. lia.
Defined.

End RangeOfComment.

(** ** More on the commands, the generator object and the settings *)

Section CommandsAtLarge.

Lemma errors_shown_app t1 t2 :
  errors_shown (t1 ++ t2) = errors_shown t1 ++ errors_shown t2.
Proof. apply omap_app. Qed.

Lemma progresses_app t1 t2 :
  progresses (t1 ++ t2) = progresses t1 ++ progresses t2.
Proof. apply omap_app. Qed.

(** X6. [lazyInstantiateJsdocGenerator] constructs the generator at most
    once: it always leaves the module variable set, it does nothing at
    all when the variable is set already, it constructs exactly one
    generator when it is not, and calling it twice in a row is the same
    as calling it once. *)
Theorem lazyInstantiateJsdocGenerator_once (w : World) :
  (lazyInstantiateJsdocGenerator ;; lazyInstantiateJsdocGenerator) w =
    lazyInstantiateJsdocGenerator w ∧
  result (lazyInstantiateJsdocGenerator w) = Some tt ∧
  is_Some (jsdocGenerator (world_after (lazyInstantiateJsdocGenerator w))) ∧
  match jsdocGenerator w with
  | Some g => lazyInstantiateJsdocGenerator w = (Some tt, w, [])
  | None =>
      ∃ g, trace (lazyInstantiateJsdocGenerator w) = [NewJsdocGenerator g] ∧
           jsdocGenerator (world_after (lazyInstantiateJsdocGenerator w)) = Some g
  end.
Proof.
  destruct w as [[g|] e c cs ps k]; cbn; repeat split; eauto.
Qed.

(** X7. Every run of a command, in every state of the module and of the
    host, returns normally, opens exactly one progress notification,
    which can be cancelled, and has exactly one outcome: one call of
    the generator or one error message, never both and never neither.
    It leaves the focus, the settings, the registered commands and the
    completion providers as they were. *)
Theorem handler_one_outcome (h : Handler) (arg : option Uri) (w : World) :
  let r := handler h arg w in
  result r = Some tt ∧
  length (progresses (trace r)) = 1%nat ∧
  Forall (λ o, cancellable o = true) (progresses (trace r)) ∧
  (length (invocations (trace r)) + length (errors_shown (trace r)) = 1)%nat ∧
  activeTextEditor (world_after r) = activeTextEditor w ∧
  configuration (world_after r) = configuration w ∧
  commands (world_after r) = commands w ∧
  completionProviders (world_after r) = completionProviders w.
Proof.
  destruct w as [[g|] [e|] c cs ps k], h, arg as [uri|]; cbn;
    repeat split; repeat constructor.
Qed.

Lemma invoke_command_outcome (i : Invocation) (w : World) :
  let r := invoke_command i w in
  result r = Some tt ∧
  length (progresses (trace r)) = 1%nat ∧
  (length (invocations (trace r)) + length (errors_shown (trace r)) = 1)%nat ∧
  activeTextEditor (world_after r) = inv_editor i ∧
  configuration (world_after r) = configuration w ∧
  commands (world_after r) = commands w ∧
  completionProviders (world_after r) = completionProviders w.
Proof.
  destruct i as [editor h arg], w as [[g|] e c cs ps k];
    destruct h, editor as [ed|], arg as [uri|]; cbn; repeat split.
Qed.

(** X8. A session of command runs, whatever the commands, their
    arguments and the editors in focus: no run throws, the user gets one
    progress notification per run, and the generator calls and the error
    messages together are as many as the runs.  The settings, the
    registered commands and the completion providers are as before the
    session. *)
Theorem session_outcomes (invs : list Invocation) (w : World) :
  let r := session invs w in
  result r = Some tt ∧
  length (progresses (trace r)) = length invs ∧
  (length (invocations (trace r)) + length (errors_shown (trace r)) =
   length invs)%nat ∧
  configuration (world_after r) = configuration w ∧
  commands (world_after r) = commands w ∧
  completionProviders (world_after r) = completionProviders w.
Proof.
  revert w. induction invs as [|i invs IH]; intros w.
  - cbn. auto 10.
  - cbv zeta.
    destruct (invoke_command_outcome i w) as (Hr & Hp & Ho & _ & Hc & Hcs & Hps).
    destruct (session_cons i invs w Hr) as (-> & -> & ->).
    destruct (IH (world_after (invoke_command i w)))
      as (Hr' & Hp' & Ho' & Hc' & Hcs' & Hps').
    rewrite progresses_app, invocations_app, errors_shown_app, !length_app.
    rewrite Hc', Hcs', Hps'. simpl. repeat split; auto; lia.
Qed.

(** X9. The folder command run without a folder (the argument is
    [undefined]) does what the workspace command does: the same call of
    the generator, no error message, and the same state afterwards. *)
Theorem folder_without_folder (arg : option Uri) (w : World) :
  let rf := handler GenerateJsdocFolder None w in
  let rw := handler GenerateJsdocWorkspace arg w in
  result rf = result rw ∧
  world_after rf = world_after rw ∧
  invocations (trace rf) = invocations (trace rw) ∧
  constructed (trace rf) = constructed (trace rw) ∧
  errors_shown (trace rf) = [] ∧
  errors_shown (trace rw) = [].
Proof.
  destruct w as [[g|] e c cs ps k]; cbn; repeat split.
Qed.

(** *** Activation next to other extensions *)

Lemma registerCommand_free (id : string) (h : Handler) (w : World) :
  commands w !! id = None →
  registerCommand id h w =
  (Some (CommandRegistration id),
   mkWorld (jsdocGenerator w) (activeTextEditor w) (configuration w)
           (<[id := h]> (commands w)) (completionProviders w) (next_ref w),
   []).
Proof.
  intros Hfree. unfold registerCommand. rewrite bind_run. cbn [gets].
  rewrite Hfree. reflexivity.
Qed.

Lemma activated_lookup (cs : gmap string Handler) (h : Handler) :
  activated cs !! command_id h = Some h.
Proof.
  unfold activated.
  destruct h; repeat (rewrite lookup_insert_ne by discriminate);
    apply lookup_insert_eq.
Qed.

Lemma activated_other (cs : gmap string Handler) (id : string) :
  (∀ h, id ≠ command_id h) → activated cs !! id = cs !! id.
Proof.
  intros Hid. unfold activated.
  rewrite !lookup_insert_ne; [reflexivity|..]; intros E; eapply Hid; eauto.
Qed.

Lemma activate_run (context : ExtensionContext) (w : World) :
  (∀ h, commands w !! command_id h = None) →
  activate context w =
  (Some {| subscriptions :=
             subscriptions context ++
             [CommandRegistration (command_id GenerateJsdoc);
              CommandRegistration (command_id GenerateJsdocFile);
              CommandRegistration (command_id GenerateJsdocFolder);
              CommandRegistration (command_id GenerateJsdocWorkspace);
              CompletionProviderRegistration COMPLETION_SELECTOR] |},
   mkWorld (jsdocGenerator w) (activeTextEditor w) (configuration w)
           (activated (commands w))
           (completionProviders w ++ [(COMPLETION_SELECTOR, ["/"; "*"]%string)])
           (next_ref w),
   []).
Proof.
  intros Hfree. destruct w as [g e c cs ps k]. simpl in Hfree.
  unfold activate. rewrite bind_run.
  cbn [registerCompletionItemProvider bind modify ret jsdocGenerator
       activeTextEditor configuration commands completionProviders next_ref
       result world_after trace fst snd app].
  rewrite bind_run, registerCommand_free by apply (Hfree GenerateJsdoc).
  cbn [jsdocGenerator activeTextEditor configuration commands
       completionProviders next_ref result world_after trace fst snd app].
  rewrite bind_run, registerCommand_free
    by (cbn [commands]; rewrite lookup_insert_ne by discriminate;
        apply (Hfree GenerateJsdocFile)).
  cbn [jsdocGenerator activeTextEditor configuration commands
       completionProviders next_ref result world_after trace fst snd app].
  rewrite bind_run, registerCommand_free
    by (cbn [commands]; rewrite !lookup_insert_ne by discriminate;
        apply (Hfree GenerateJsdocFolder)).
  cbn [jsdocGenerator activeTextEditor configuration commands
       completionProviders next_ref result world_after trace fst snd app].
  rewrite bind_run, registerCommand_free
    by (cbn [commands]; rewrite !lookup_insert_ne by discriminate;
        apply (Hfree GenerateJsdocWorkspace)).
  reflexivity.
Qed.

(** X10. Activation next to other extensions.  When none of the four
    identifiers is taken, [activate] succeeds and emits nothing; it adds
    its four commands and its completion provider (for the four
    selectors, triggered by [/] and [*]) and keeps every command and
    provider that was registered before; it appends its five
    disposables to the subscriptions it was given; it does not construct
    the generator and leaves the focus and the settings alone. *)
Theorem activate_among_others (context : ExtensionContext) (w : World) :
  (∀ h, commands w !! command_id h = None) →
  let r := activate context w in
  (∃ context', result r = Some context' ∧
     ∃ added, subscriptions context' = subscriptions context ++ added ∧
              length added = 5%nat) ∧
  trace r = [] ∧
  (∀ h, commands (world_after r) !! command_id h = Some h) ∧
  (∀ id h, commands w !! id = Some h → commands (world_after r) !! id = Some h) ∧
  (∀ id, (∀ h, id ≠ command_id h) →
         commands (world_after r) !! id = commands w !! id) ∧
  completionProviders (world_after r) =
    completionProviders w ++ [(COMPLETION_SELECTOR, ["/"; "*"]%string)] ∧
  jsdocGenerator (world_after r) = jsdocGenerator w ∧
  activeTextEditor (world_after r) = activeTextEditor w ∧
  configuration (world_after r) = configuration w.
Proof.
  intros Hfree r. subst r. rewrite (activate_run context w Hfree).
  cbn [result world_after trace fst snd jsdocGenerator activeTextEditor
       configuration commands completionProviders].
  split; [eexists; split; [reflexivity|]; eexists; split; reflexivity|].
  split; [reflexivity|]. split; [apply activated_lookup|].
  split.
  - intros id h Hid. rewrite activated_other; [assumption|].
    intros h' ->. rewrite Hfree in Hid. discriminate.
  - split; [apply activated_other|]. auto.
Qed.

Lemma activate_among_others_witness :
  let w := mkWorld None None ∅ {[ "editor.action.formatDocument" := GenerateJsdoc ]}
                   [] 0 in
  let r := activate (mkExtensionContext []) w in
  commands (world_after r) !! "editor.action.formatDocument" = Some GenerateJsdoc ∧
  commands (world_after r) !! "jsdoc-generator.generateJsdocFolder"
    = Some GenerateJsdocFolder ∧
  jsdocGenerator (world_after r) = None.
Proof.
  pose proof (activate_among_others (mkExtensionContext [])
                (mkWorld None None ∅
                   {[ "editor.action.formatDocument" := GenerateJsdoc ]} [] 0))
    as H.
  cbv zeta in H.
  destruct H as (_ & _ & Hown & Hkeep & _ & _ & Hgen & _).
  - intros h. destruct h; reflexivity.
  - split; [apply Hkeep; reflexivity|].
    split; [apply (Hown GenerateJsdocFolder)|exact Hgen].
Defined.

(** X11. After a successful activation the host reaches each callback
    under its identifier: running the identifier of a command is running
    its handler. *)
Theorem executeCommand_after_activate
    (context : ExtensionContext) (w : World) (h : Handler) (arg : option Uri) :
  (∀ h', commands w !! command_id h' = None) →
  let w' := world_after (activate context w) in
  executeCommand (command_id h) arg w' = handler h arg w'.
Proof.
  intros Hfree w'. subst w'. rewrite (activate_run context w Hfree).
  cbn [world_after fst snd].
  unfold executeCommand. unfold bind at 1. cbn [gets commands].
  rewrite activated_lookup.
  destruct (handler h arg _) as [[b w2] t2]. reflexivity.
Qed.

Lemma executeCommand_after_activate_witness :
  let w' := world_after (activate (mkExtensionContext []) (loaded None ∅)) in
  executeCommand (command_id GenerateJsdocFile) (Some (mkUri "a.ts")) w' =
  handler GenerateJsdocFile (Some (mkUri "a.ts")) w'.
Proof.
  apply (executeCommand_after_activate (mkExtensionContext []) (loaded None ∅)
           GenerateJsdocFile (Some (mkUri "a.ts"))).
  intros h'. destruct h'; reflexivity.
Defined.

(** *** The generator before the target *)

(** X14. Every command makes sure of the generator before it looks at
    its target: after a run the module variable is set, also when the
    run ended in an error message; the run constructs a generator
    exactly when the variable was not set before, and a generator that
    was there is kept. *)
Theorem handler_instantiates_first (h : Handler) (arg : option Uri) (w : World) :
  let r := handler h arg w in
  match jsdocGenerator w with
  | Some g =>
      jsdocGenerator (world_after r) = Some g ∧ constructed (trace r) = []
  | None =>
      ∃ g, jsdocGenerator (world_after r) = Some g ∧
           constructed (trace r) = [g]
  end.
Proof.
  destruct w as [[g|] [e|] c cs ps k], h, arg as [uri|]; cbn; eauto.
Qed.

End CommandsAtLarge.

(** ** The type printer, as specified *)

Module CoreProperties.

Import Core.

(** *** Parentheses around composite types *)

Lemma composite_forced (parens : bool) (t : TypeDescriptor) :
  is_composite t = true → parenthesized (render_type parens true t).
Proof.
  destruct t; try discriminate; intros _; simpl;
    rewrite orb_true_r; eexists; reflexivity.
Qed.

(** C7. A union or intersection that is the element of an array, or
    that carries the optional (or required) mark, is printed between
    parentheses whether [includeParenthesisForMultipleTypes] is set or
    not: the array prints as the parenthesized element followed by [[]],
    the marked type as the parenthesized type followed by its
    modifier. *)
Theorem composite_parenthesized (parens forced : bool) (t : TypeDescriptor) :
  is_composite t = true →
  (∃ element_text,
     render_type parens forced (Array t) = element_text +:+ "[]" ∧
     parenthesized element_text) ∧
  (∀ m, m ≠ Plain →
        ∃ text,
          render_marked parens m t = text +:+ modifier_text m ∧
          parenthesized text).
Proof.
  intros Ht. split.
  - exists (render_type parens true t). split; [reflexivity|].
    by apply composite_forced.
  - intros m Hm. exists (render_type parens true t). split.
    + destruct m; [contradiction|reflexivity|reflexivity].
    + by apply composite_forced.
Qed.

Lemma composite_parenthesized_witness :
  let t := Union [Primitive "string"; Primitive "number"] in
  render_type false false (Array t) = "(string | number)[]" ∧
  render_marked false Optional t = "(string | number)=" ∧
  (∃ element_text,
     render_type false false (Array t) = element_text +:+ "[]" ∧
     parenthesized element_text) ∧
  (∀ m, m ≠ Plain →
        ∃ text,
          render_marked false m t = text +:+ modifier_text m ∧
          parenthesized text).
Proof.
  split; [reflexivity|]. split; [reflexivity|].
  exact (composite_parenthesized false false
           (Union [Primitive "string"; Primitive "number"]) eq_refl).
Defined.

End CoreProperties.
